(** * MultiSet VPS WebXR SDK: localization client and WebXR controller

    A shallow embedding of [src/lib/core/index.ts] (the [MultisetClient]) and
    [src/lib/webxr/index.ts] (the [WebxrController], [getCameraIntrinsics] and
    [getCameraTextureAsImage]), followed by the properties of the two.

    Conventions of the embedding:
    - a JavaScript [number] that the code only does arithmetic on is a
      rational ([Q]): the formulas are read in exact arithmetic; where the
      rounding of binary64 matters, in [getCameraIntrinsics], the function
      is embedded a second time over the kernel's primitive [float]
      ([getCameraIntrinsics64]); pixel dimensions and byte counts are [nat];
    - a promise is its [Outcome] ([Resolved] or [Rejected]) together with
      the trace of [Event]s (notifications, HTTP requests, frame requests,
      framebuffer calls) issued, in order, until it settles;
    - host objects (renderer, camera, scene, DOM elements, closures) are
      identities ([ObjId]) allocated from a counter in the [World];
    - an optional hook [config.onX?.(v)] appends the event when the hook is
      configured and nothing otherwise; hooks themselves do not throw. *)

From Stdlib Require Import Floats QArith Lqa Lia Bool Strings.Byte.
From stdpp Require Import gmap strings list.

Local Open Scope string_scope.
Local Open Scope list_scope.

(** ** JavaScript values shared by the two files *)

Inductive JsError : Type :=
| Error (message : string)
| AxiosError (message : string)
| RangeError (message : string).

Inductive Outcome (A : Type) : Type :=
| Resolved (value : A)
| Rejected (reason : JsError).
Arguments Resolved {A} value.
Arguments Rejected {A} reason.

(** Truthiness of a [string | null | undefined]: [null], [undefined] and
    the empty string are falsy. *)
Definition truthy_string (s : option string) : bool :=
  match s with
  | Some EmptyString => false
  | Some _ => true
  | None => false
  end.

(** [a ?? b] on optional values. *)
Definition nullish {A : Type} (a b : option A) : option A :=
  match a with
  | Some v => Some v
  | None => b
  end.

Definition ObjId : Type := nat.
Definition Blob : Type := list byte.

(** ** src/lib/core/types.ts *)

Inductive MapType : Type := map_ | map_set.

Record IPosition : Type := { pos_x : Q; pos_y : Q; pos_z : Q }.
Record IRotation : Type := { rot_x : Q; rot_y : Q; rot_z : Q; rot_w : Q }.

Record ILocalizeResponse : Type := {
  poseFound : bool;
  position : IPosition;
  rotation : IRotation;
  retrieval_scores : list Q;
  num_matches : list Q;
  confidence : Q;
  retrieved_imgs : list string;
  mapIds : option (list string)
}.

Record IMapLocation : Type := {
  loc_type : string;
  coordinates : Q * Q * Q;
  loc_id : string
}.

Record ICameraIntrinsicsResponse : Type := {
  cam_fx : Q; cam_fy : Q; cam_px : Q; cam_py : Q
}.

Record IMeshInfo : Type := { mesh_type : string; meshLink : string }.
Record IMapMesh : Type := { rawMesh : IMeshInfo; texturedMesh : IMeshInfo }.
Record IResolution : Type := { res_width : Q; res_height : Q }.

Record IMapSource : Type := {
  provider : string;
  fileType : string;
  coordinateSystem : string
}.

Record IGetMapsDetailsResponse : Type := {
  _id : string;
  accountId : string;
  mapName : string;
  location : IMapLocation;
  status : string;
  storage : Q;
  createdAt : string;
  updatedAt : string;
  cameraIntrinsics : ICameraIntrinsicsResponse;
  mapMesh : IMapMesh;
  resolution : IResolution;
  globalFeature : string;
  mapCode : string;
  source : IMapSource
}.

Record ILocalizeAndMapDetails : Type := {
  localizeData : ILocalizeResponse;
  mapDetails : option IGetMapsDetailsResponse
}.

(** ** src/lib/core/index.ts *)

Record IMultisetSdkEndpoints : Type := {
  authUrl : string;
  queryUrl : string;
  mapDetailsUrl : string;
  fileDownloadUrl : string;
  mapSetDetailsUrl : string
}.

(** [Partial<IMultisetSdkEndpoints>] *)
Record PartialEndpoints : Type := {
  p_authUrl : option string;
  p_queryUrl : option string;
  p_mapDetailsUrl : option string;
  p_fileDownloadUrl : option string;
  p_mapSetDetailsUrl : option string
}.

Record IFrameCaptureEvent : Type := {
  blob : Blob;
  frame_width : nat;
  frame_height : nat
}.

Record ICameraIntrinsicsEvent : Type := {
  fx : Q;
  fy : Q;
  px : Q;
  py : Q;
  width : Q;
  height : Q
}.

(** The configuration; each optional hook is recorded by its presence. *)
Record IMultisetSdkConfig : Type := {
  clientId : string;
  clientSecret : string;
  code : string;
  mapType : MapType;
  endpoints_override : option PartialEndpoints;
  onAuthorize : bool;
  onFrameCaptured : bool;
  onCameraIntrinsics : bool;
  onPoseResult : bool;
  onError : bool
}.

Definition DEFAULT_ENDPOINTS : IMultisetSdkEndpoints := {|
  authUrl := "https://dev-api.multiset.ai/v1/m2m/token";
  queryUrl := "https://dev-api.multiset.ai/v1/vps/map/query-form";
  mapDetailsUrl := "https://dev-api.multiset.ai/v1/vps/map/";
  mapSetDetailsUrl := "https://dev-api.multiset.ai/v1/vps/map-set/";
  fileDownloadUrl := "https://dev-api.multiset.ai/v1/file"
|}.

(** The multipart body built by [queryLocalization]. *)
Record QueryForm : Type := {
  f_isRightHanded : string;
  f_width : nat;
  f_height : nat;
  f_px : Q;
  f_py : Q;
  f_fx : Q;
  f_fy : Q;
  f_queryImage : Blob;
  f_mapCode : option string;
  f_mapSetCode : option string
}.

(** Everything observable outside the two classes, in program order. *)
Inductive Event : Type :=
| EvAuthorize (token : string)
| EvFrameCaptured (frame : IFrameCaptureEvent)
| EvCameraIntrinsics (intrinsics : ICameraIntrinsicsEvent)
| EvPoseResult (payload : ILocalizeResponse)
| EvError (error : JsError)
| HttpPostAuth (url username password : string)
| HttpPostQuery (url : string) (bearer : option string) (form : QueryForm)
| HttpGet (url : string) (bearer : option string)
| RequestAnimationFrame (session : ObjId)
| CreateFramebuffer
| ReadPixels (w h : nat)
| DeleteFramebuffer
| RestoreFramebuffer (session : ObjId)
| EvARButtonCreated (button : ObjId)
| EvSessionStart
| EvSessionEnd.

Definition is_map_detail_fetch (ev : Event) : bool :=
  match ev with
  | HttpGet _ _ => true
  | _ => false
  end.

(** A promise-returning computation: the events it issues and how it
    settles. *)
Definition Eff (A : Type) : Type := list Event * Outcome A.

Definition ret {A : Type} (a : A) : Eff A := ([], Resolved a).
Definition throw {A : Type} (e : JsError) : Eff A := ([], Rejected e).
Definition emit (ev : Event) : Eff unit := ([ev], Resolved tt).

Definition bind {A B : Type} (m : Eff A) (k : A -> Eff B) : Eff B :=
  match m with
  | (t, Resolved a) => let '(t', o) := k a in (t ++ t', o)
  | (t, Rejected e) => (t, Rejected e)
  end.

(** [try { m } catch (error) { h error }] *)
Definition try_catch {A : Type} (m : Eff A) (h : JsError -> Eff A) : Eff A :=
  match m with
  | (t, Resolved a) => (t, Resolved a)
  | (t, Rejected e) => let '(t', o) := h e in (t ++ t', o)
  end.

(** [try { m } finally { f }], for a [finally] block that does not throw. *)
Definition try_finally {A : Type} (m : Eff A) (f : list Event) : Eff A :=
  let '(t, o) := m in (t ++ f, o).

Notation "x <- m ;; k" := (bind m (fun x => k))
  (at level 100, m at next level, right associativity).
Notation "m ;;; k" := (bind m (fun _ => k))
  (at level 100, right associativity).

(** [hook?.(v)] *)
Definition notify (hook : bool) (ev : Event) : Eff unit :=
  if hook then emit ev else ret tt.

Definition trace {A : Type} (m : Eff A) : list Event := fst m.
Definition outcome {A : Type} (m : Eff A) : Outcome A := snd m.

(** What the HTTP layer (axios) answers: a body, or a thrown error. *)
Inductive HttpResult (A : Type) : Type :=
| HttpOk (data : A)
| HttpFail (error : JsError).
Arguments HttpOk {A} data.
Arguments HttpFail {A} error.

(** The body of the authorization answer: the two accepted token fields. *)
Record AuthBody : Type := {
  token_field : option string;
  access_token_field : option string
}.

(** The remote service, as a function of each request. *)
Record Network : Type := {
  answerAuth : string -> string -> string -> HttpResult (option AuthBody);
  answerQuery : string -> option string -> QueryForm -> HttpResult ILocalizeResponse;
  answerGet : string -> option string -> HttpResult (option IGetMapsDetailsResponse)
}.

Definition http {A : Type} (request : Event) (answer : HttpResult A) : Eff A :=
  match answer with
  | HttpOk data => ([request], Resolved data)
  | HttpFail error => ([request], Rejected error)
  end.

Record MultisetClient : Type := {
  config : IMultisetSdkConfig;
  endpoints : IMultisetSdkEndpoints;
  accessToken : option string
}.

(** [{ ...DEFAULT_ENDPOINTS, ...config.endpoints }] *)
Definition merge_endpoints (d : IMultisetSdkEndpoints) (o : option PartialEndpoints)
  : IMultisetSdkEndpoints :=
  match o with
  | None => d
  | Some p => {|
      authUrl := default (authUrl d) (p_authUrl p);
      queryUrl := default (queryUrl d) (p_queryUrl p);
      mapDetailsUrl := default (mapDetailsUrl d) (p_mapDetailsUrl p);
      fileDownloadUrl := default (fileDownloadUrl d) (p_fileDownloadUrl p);
      mapSetDetailsUrl := default (mapSetDetailsUrl d) (p_mapSetDetailsUrl p)
    |}
  end.

Definition new_MultisetClient (cfg : IMultisetSdkConfig) : MultisetClient := {|
  config := cfg;
  endpoints := merge_endpoints DEFAULT_ENDPOINTS (endpoints_override cfg);
  accessToken := None
|}.

Definition token (c : MultisetClient) : option string := accessToken c.

Definition handleError (c : MultisetClient) (error : JsError) : Eff unit :=
  match error with
  | AxiosError _ => notify (onError (config c)) (EvError error)
  | _ => notify (onError (config c)) (EvError error)
  end.

Definition NoTokenReturned : JsError :=
  Error "Authorization succeeded but no token was returned.".

Definition MissingTokenError : JsError :=
  Error "Access token is missing. Call authorize() first.".

(** The [try] block of [authorize]. [this.accessToken = token] is the only
    assignment and sits on the path that returns, so the token is stored
    exactly when the block resolves; see [authorize]. *)
Definition authorize_try (net : Network) (c : MultisetClient) : Eff string :=
  data <- http
    (HttpPostAuth (authUrl (endpoints c)) (clientId (config c)) (clientSecret (config c)))
    (answerAuth net (authUrl (endpoints c)) (clientId (config c)) (clientSecret (config c))) ;;
  let tok := nullish (data ≫= token_field) (data ≫= access_token_field) in
  match tok with
  | Some t =>
      if negb (truthy_string tok) then throw NoTokenReturned
      else notify (onAuthorize (config c)) (EvAuthorize t) ;;; ret t
  | None => throw NoTokenReturned
  end.

(** [authorize]: the client after the call, and the settled promise. *)
Definition authorize (net : Network) (c : MultisetClient) : MultisetClient * Eff string :=
  let body := authorize_try net c in
  (match outcome body with
   | Resolved t => {| config := config c; endpoints := endpoints c; accessToken := Some t |}
   | Rejected _ => c
   end,
   try_catch body (fun error => handleError c error ;;; throw error)).

Definition fetchMapDetails (net : Network) (c : MultisetClient) (mapId : string)
  : Eff (option IGetMapsDetailsResponse) :=
  let url := String.append (mapDetailsUrl (endpoints c)) mapId in
  try_catch
    (http (HttpGet url (accessToken c)) (answerGet net url (accessToken c)))
    (fun error => handleError c error ;;; ret None).

Definition build_form (c : MultisetClient) (frame : IFrameCaptureEvent)
  (intrinsics : ICameraIntrinsicsEvent) : QueryForm := {|
  f_isRightHanded := "true";
  f_width := frame_width frame;
  f_height := frame_height frame;
  f_px := px intrinsics;
  f_py := py intrinsics;
  f_fx := fx intrinsics;
  f_fy := fy intrinsics;
  f_queryImage := blob frame;
  f_mapCode := match mapType (config c) with map_ => Some (code (config c)) | map_set => None end;
  f_mapSetCode := match mapType (config c) with map_ => None | map_set => Some (code (config c)) end
|}.

(** [data.mapIds?.length] is truthy, and then [data.mapIds[0]]. *)
Definition first_mapId (data : ILocalizeResponse) : option string :=
  match mapIds data with
  | Some (m :: _) => Some m
  | _ => None
  end.

Definition queryLocalization (net : Network) (c : MultisetClient)
  (frame : IFrameCaptureEvent) (intrinsics : ICameraIntrinsicsEvent)
  : Eff (option ILocalizeAndMapDetails) :=
  let formData := build_form c frame intrinsics in
  try_catch
    (data <- http (HttpPostQuery (queryUrl (endpoints c)) (accessToken c) formData)
                  (answerQuery net (queryUrl (endpoints c)) (accessToken c) formData) ;;
     if negb (poseFound data) then ret None
     else
       let result := {| localizeData := data; mapDetails := None |} in
       match first_mapId data with
       | Some m =>
           details <- fetchMapDetails net c m ;;
           match details with
           | Some d => ret (Some {| localizeData := data; mapDetails := Some d |})
           | None => ret (Some result)
           end
       | None => ret (Some result)
       end)
    (fun error => handleError c error ;;; ret None).

Definition localizeWithFrame (net : Network) (c : MultisetClient)
  (frame : IFrameCaptureEvent) (intrinsics : ICameraIntrinsicsEvent)
  : Eff (option ILocalizeAndMapDetails) :=
  if negb (truthy_string (accessToken c)) then throw MissingTokenError
  else
    notify (onFrameCaptured (config c)) (EvFrameCaptured frame) ;;;
    notify (onCameraIntrinsics (config c)) (EvCameraIntrinsics intrinsics) ;;;
    queryResult <- queryLocalization net c frame intrinsics ;;
    match queryResult with
    | Some r =>
        if poseFound (localizeData r)
        then notify (onPoseResult (config c)) (EvPoseResult (localizeData r)) ;;; ret queryResult
        else ret queryResult
    | None => ret queryResult
    end.

(** ** src/lib/webxr/index.ts: free functions *)

Record XRViewport : Type := {
  vp_x : Q;
  vp_y : Q;
  vp_width : Q;
  vp_height : Q
}.

(** [p[i]] on the projection matrix, a [Float32Array] of 16 entries. *)
Definition idx (p : list Q) (i : nat) : Q := nth i p 0%Q.

Definition getCameraIntrinsics (projectionMatrix : list Q) (viewport : XRViewport)
  : ICameraIntrinsicsEvent :=
  let p := projectionMatrix in
  let u0 := ((1 - idx p 8) * vp_width viewport / 2 + vp_x viewport)%Q in
  let v0 := ((1 - idx p 9) * vp_height viewport / 2 + vp_y viewport)%Q in
  let ax := (vp_width viewport / 2 * idx p 0)%Q in
  let ay := (vp_height viewport / 2 * idx p 5)%Q in
  {| fx := ax; fy := ay; px := u0; py := v0;
     width := vp_width viewport; height := vp_height viewport |}.

(** [a.subarray(b, e)]: both ends are clamped to the array. *)
Definition subarray (a : list byte) (b e : nat) : list byte := take (e - b) (drop b a).

(** [target.set(source, offset)]: a [RangeError] ([None]) when the source
    does not fit, else the target with the source written at [offset]. *)
Definition typed_set (target source : list byte) (offset : nat) : option (list byte) :=
  if decide (offset + length source <= length target)
  then Some (take offset target ++ source ++ drop (offset + length source) target)
  else None.

(** The body of the row loop of [getCameraTextureAsImage], over the rows
    still to be copied. *)
Fixpoint flipRows (width height : nat) (pixelBuffer : list byte) (rows : list nat)
  (flippedData : list byte) : option (list byte) :=
  match rows with
  | [] => Some flippedData
  | row :: rest =>
      let sourceStart := row * width * 4 in
      let destStart := (height - row - 1) * width * 4 in
      match typed_set flippedData
              (subarray pixelBuffer sourceStart (sourceStart + width * 4)) destStart with
      | Some flippedData' => flipRows width height pixelBuffer rest flippedData'
      | None => None
      end
  end.

(** [flippedData = new Uint8ClampedArray(pixelBuffer.length)] followed by
    the loop [for (row = 0; row < height; row += 1)]. *)
Definition flipVertical (width height : nat) (pixelBuffer : list byte) : option (list byte) :=
  flipRows width height pixelBuffer (seq 0 height) (replicate (length pixelBuffer) x00).

(** Flipping a flipped buffer again. *)
Definition flipTwice (width height : nat) (pixelBuffer : list byte) : option (list byte) :=
  flipVertical width height pixelBuffer ≫= flipVertical width height.

(** The WebGL context and the 2D canvas, as far as the capture uses them. *)
Record GlEnv : Type := {
  hasContext : bool;
  createFramebuffer : bool;
  texel : ObjId -> nat -> byte;
  toBlob : list byte -> nat -> nat -> Q -> option Blob
}.

(** [canvas.toBlob((blob) => resolve(blob ?? new Blob()), 'image/jpeg', quality)],
    for a buffer of [width * height * 4] bytes with [width] and [height]
    nonzero, which is all that [captureFrame] passes on; on an empty
    buffer [new ImageData] throws before the encoder is reached. *)
Definition compressToJpeg (gl : GlEnv) (buffer : list byte) (width height : nat)
  (quality : Q) : Blob :=
  default [] (toBlob gl buffer width height quality).

Definition FlipOutOfRange : JsError := RangeError "offset is out of bounds".

Definition getCameraTextureAsImage (gl : GlEnv) (webGLTexture : ObjId)
  (width height : nat) : Eff (option IFrameCaptureEvent) :=
  if negb (hasContext gl) then ret None
  else
    emit CreateFramebuffer ;;;
    if negb (createFramebuffer gl) then ret None
    else
      let pixelBuffer := map (texel gl webGLTexture) (seq 0 (width * height * 4)) in
      emit (ReadPixels width height) ;;;
      emit DeleteFramebuffer ;;;
      match flipVertical width height pixelBuffer with
      | None => throw FlipOutOfRange
      | Some flippedData =>
          let blob := compressToJpeg gl flippedData width height (7 # 10) in
          if decide (length blob = 0) then ret None
          else ret (Some {| blob := blob; frame_width := width; frame_height := height |})
      end.

(** ** src/lib/webxr/index.ts: the host environment *)

Inductive XrEventType : Type := sessionstart | sessionend.

Global Instance XrEventType_eq_dec : EqDecision XrEventType.
Proof. solve_decision. Defined.

(** A [THREE.WebGLRenderer] with its [xr] manager: the listeners added on
    [renderer.xr], what [getSession], [getReferenceSpace] and
    [isPresenting] answer, the callback of [setAnimationLoop], and whether
    [dispose] has been called. *)
Record WebGLRenderer : Type := {
  r_canvas : ObjId;
  xr_enabled : bool;
  xr_listeners : list (XrEventType * ObjId);
  xr_session : option ObjId;
  xr_referenceSpace : option ObjId;
  xr_isPresenting : bool;
  r_animationLoop : option ObjId;
  r_disposed : bool
}.

Global Instance WebGLRenderer_inhabited : Inhabited WebGLRenderer :=
  populate {| r_canvas := 0; xr_enabled := false; xr_listeners := [];
              xr_session := None; xr_referenceSpace := None;
              xr_isPresenting := false; r_animationLoop := None;
              r_disposed := false |}.

(** [window], [document] and the object heap. *)
Record World : Type := {
  isSecureContext : bool;
  nextId : ObjId;
  document_body : ObjId;
  renderers : gmap ObjId WebGLRenderer;
  resizeListeners : list ObjId;
  parentElement : gmap ObjId ObjId
}.

Record IWebxrControllerOptions : Type := {
  canvas : option ObjId;
  overlayRoot : option ObjId;
  buttonContainer : option ObjId;
  onARButtonCreated : bool;
  onSessionStart : bool;
  onSessionEnd : bool
}.

Record WebxrController : Type := {
  options : IWebxrControllerOptions;
  renderer : option ObjId;
  camera : option ObjId;
  scene : option ObjId;
  animationLoop : option ObjId;
  arButton : option ObjId;
  resizeHandler : option ObjId;
  isSessionActive : bool
}.

(** [new WebxrController(options)] *)
Definition new_WebxrController (o : IWebxrControllerOptions) : WebxrController := {|
  options := o; renderer := None; camera := None; scene := None;
  animationLoop := None; arButton := None; resizeHandler := None;
  isSessionActive := false
|}.

Record State : Type := { ctl : WebxrController; world : World }.

(** A new host object: its identity and the world after the allocation. *)
Definition alloc (w : World) : ObjId * World :=
  (nextId w,
   {| isSecureContext := isSecureContext w; nextId := S (nextId w);
      document_body := document_body w; renderers := renderers w;
      resizeListeners := resizeListeners w; parentElement := parentElement w |}).

Definition set_renderers (m : gmap ObjId WebGLRenderer) (w : World) : World :=
  {| isSecureContext := isSecureContext w; nextId := nextId w;
     document_body := document_body w; renderers := m;
     resizeListeners := resizeListeners w; parentElement := parentElement w |}.

Definition set_resizeListeners (l : list ObjId) (w : World) : World :=
  {| isSecureContext := isSecureContext w; nextId := nextId w;
     document_body := document_body w; renderers := renderers w;
     resizeListeners := l; parentElement := parentElement w |}.

Definition set_parentElement (m : gmap ObjId ObjId) (w : World) : World :=
  {| isSecureContext := isSecureContext w; nextId := nextId w;
     document_body := document_body w; renderers := renderers w;
     resizeListeners := resizeListeners w; parentElement := m |}.

(** [window.addEventListener('resize', h)] and its inverse. *)
Definition addResizeListener (h : ObjId) (w : World) : World :=
  set_resizeListeners
    (if decide (h ∈ resizeListeners w) then resizeListeners w else resizeListeners w ++ [h]) w.

Definition removeResizeListener (h : ObjId) (w : World) : World :=
  set_resizeListeners (filter (λ x, x ≠ h) (resizeListeners w)) w.

(** [renderer.dispose()]: the renderer is marked as disposed. The call
    is three.js's and nothing more is read into it: the callback given to
    [setAnimationLoop] stays registered (the controller never calls
    [setAnimationLoop(null)]), and so do the listeners that other code
    added on [renderer.xr]. *)
Definition renderer_dispose (r : WebGLRenderer) : WebGLRenderer :=
  {| r_canvas := r_canvas r; xr_enabled := xr_enabled r;
     xr_listeners := xr_listeners r; xr_session := xr_session r;
     xr_referenceSpace := xr_referenceSpace r;
     xr_isPresenting := xr_isPresenting r;
     r_animationLoop := r_animationLoop r; r_disposed := true |}.

(** [parent.contains(node)]: [node] is [parent] or one of its descendants. *)
Fixpoint contains_upto (fuel : nat) (dom : gmap ObjId ObjId) (parent node : ObjId) : bool :=
  if decide (parent = node) then true
  else match fuel with
       | 0 => false
       | S fuel' =>
           match dom !! node with
           | Some up => contains_upto fuel' dom parent up
           | None => false
           end
       end.

Definition contains (w : World) (parent node : ObjId) : bool :=
  contains_upto (size (parentElement w)) (parentElement w) parent node.

Definition SecureContextError : JsError :=
  Error "WebXR requires a secure context (HTTPS).".
Definition SceneNotInitialized : JsError :=
  Error "Scene: WebXR controller has not been initialized.".
Definition CameraNotInitialized : JsError :=
  Error "Camera: WebXR controller has not been initialized.".
Definition RendererNotInitialized : JsError :=
  Error "Renderer: WebXR controller has not been initialized.".
Definition NotInitializedError : JsError :=
  Error "WebXR: WebXR controller has not been initialized.".
Definition NoActiveSessionError : JsError :=
  Error "WebXR Session: No active WebXR session. Start AR before capturing.".
Definition NoReferenceSpaceError : JsError :=
  Error "WebXR Reference Space: Unable to acquire XR reference space.".

(** ** src/lib/webxr/index.ts: [WebxrController] *)

(** The renderer that [new THREE.WebGLRenderer({ canvas, ... })] returns,
    after [renderer.xr.enabled = true], the two [addEventListener] calls on
    [renderer.xr] and [renderer.setAnimationLoop(animationLoop)]. *)
Definition initialized_renderer (canvas onStart onEnd loop : ObjId) : WebGLRenderer :=
  {| r_canvas := canvas; xr_enabled := true;
     xr_listeners := [(sessionstart, onStart); (sessionend, onEnd)];
     xr_session := None; xr_referenceSpace := None; xr_isPresenting := false;
     r_animationLoop := Some loop; r_disposed := false |}.

(** [buttonParent]: call-time container, then the configured one, then
    the overlay root. *)
Definition resolve_buttonParent (arg configured : option ObjId) (overlay : ObjId) : ObjId :=
  match arg with
  | Some e => e
  | None => match configured with
            | Some e => e
            | None => overlay
            end
  end.

Definition initialize (buttonContainer_arg : option ObjId) (s : State)
  : State * Eff (option ObjId) :=
  let c := ctl s in
  let w := world s in
  match renderer c with
  | Some _ => (s, ret (arButton c))
  | None =>
      if negb (isSecureContext w) then (s, throw SecureContextError)
      else
        let '(canvas_, w) :=
          match canvas (options c) with
          | Some e => (e, w)
          | None => alloc w
          end in
        let '(renderer_, w) := alloc w in
        let '(onStart, w) := alloc w in
        let '(onEnd, w) := alloc w in
        let '(camera_, w) := alloc w in
        let '(scene_, w) := alloc w in
        let '(animationLoop_, w) := alloc w in
        let w := set_renderers
          (<[renderer_ := initialized_renderer canvas_ onStart onEnd animationLoop_]>
             (renderers w)) w in
        let '(resizeHandler_, w) := alloc w in
        let w := addResizeListener resizeHandler_ w in
        let overlayRoot_ := default (document_body w) (overlayRoot (options c)) in
        let '(arButton_, w) := alloc w in
        let buttonParent :=
          resolve_buttonParent buttonContainer_arg (buttonContainer (options c)) overlayRoot_ in
        let w :=
          if negb (contains w buttonParent arButton_)
          then set_parentElement (<[arButton_ := buttonParent]> (parentElement w)) w
          else w in
        ({| ctl := {| options := options c;
                      renderer := Some renderer_;
                      camera := Some camera_;
                      scene := Some scene_;
                      animationLoop := Some animationLoop_;
                      arButton := Some arButton_;
                      resizeHandler := Some resizeHandler_;
                      isSessionActive := isSessionActive c |};
            world := w |},
         notify (onARButtonCreated (options c)) (EvARButtonCreated arButton_) ;;;
         ret (Some arButton_))
  end.

(** The accessors return or throw at once; [Resolved] is the returned
    handle and [Rejected] the thrown error. *)
Definition getScene (c : WebxrController) : Outcome ObjId :=
  match scene c with
  | None => Rejected SceneNotInitialized
  | Some h => Resolved h
  end.

Definition getCamera (c : WebxrController) : Outcome ObjId :=
  match camera c with
  | None => Rejected CameraNotInitialized
  | Some h => Resolved h
  end.

Definition getRenderer (c : WebxrController) : Outcome ObjId :=
  match renderer c with
  | None => Rejected RendererNotInitialized
  | Some h => Resolved h
  end.

(** [this.isSessionActive && this.renderer?.xr.isPresenting === true] *)
Definition hasActiveSession (s : State) : bool :=
  isSessionActive (ctl s)
  && match renderer (ctl s) with
     | Some r => xr_isPresenting (renderers (world s) !!! r)
     | None => false
     end.

Record XRCamera : Type := {
  cam_width : nat;
  cam_height : nat;
  cam_image : option ObjId
}.

Record XRViewWithCamera : Type := {
  view_camera : option XRCamera;
  projectionMatrix : list Q
}.

(** The [XRFrame] handed to the frame callback: what [getViewerPose]
    answers for a reference space ([None] is a null pose, else the views). *)
Record XRFrame : Type := {
  getViewerPose : ObjId -> option (list XRViewWithCamera)
}.

(** The viewport that [captureFrame] passes to [getCameraIntrinsics]. *)
Definition capture_viewport (width height : nat) : XRViewport :=
  {| vp_width := inject_Z (Z.of_nat width); vp_height := inject_Z (Z.of_nat height);
     vp_x := 0; vp_y := 0 |}.

(** The loop [for (const view of viewerPose.views)] and the
    [resolve(null)] after it. *)
Fixpoint captureViews (net : Network) (client : MultisetClient) (gl : GlEnv)
  (views : list XRViewWithCamera) : Eff (option ILocalizeAndMapDetails) :=
  match views with
  | [] => ret None
  | view :: rest =>
      match view_camera view with
      | None => captureViews net client gl rest
      | Some xrCamera =>
          match cam_image xrCamera with
          | None => captureViews net client gl rest
          | Some cameraTexture =>
              let width := cam_width xrCamera in
              let height := cam_height xrCamera in
              if (width =? 0)%nat || (height =? 0)%nat
              then captureViews net client gl rest
              else
                frameData <- getCameraTextureAsImage gl cameraTexture width height ;;
                let intrinsics :=
                  getCameraIntrinsics (projectionMatrix view) (capture_viewport width height) in
                match frameData with
                | Some frame => localizeWithFrame net client frame intrinsics
                | None => captureViews net client gl rest
                end
          end
      end
  end.

(** The callback given to [session.requestAnimationFrame]: the [try]
    block settles the promise of [captureFrame], the [finally] block
    rebinds the session's framebuffer. *)
Definition frameCallback (net : Network) (client : MultisetClient) (gl : GlEnv)
  (session referenceSpace : ObjId) (xrFrame : XRFrame)
  : Eff (option ILocalizeAndMapDetails) :=
  try_finally
    (match getViewerPose xrFrame referenceSpace with
     | None => ret None
     | Some views => captureViews net client gl views
     end)
    (if hasContext gl then [RestoreFramebuffer session] else []).

(** The checks that [captureFrame] makes before it schedules anything:
    the session and the reference space it goes on with, or the error
    it throws. *)
Definition captureFrame_checks (s : State) : Outcome (ObjId * ObjId) :=
  match renderer (ctl s), camera (ctl s) with
  | Some r, Some _ =>
      match xr_session (renderers (world s) !!! r) with
      | None => Rejected NoActiveSessionError
      | Some session =>
          match xr_referenceSpace (renderers (world s) !!! r) with
          | None => Rejected NoReferenceSpaceError
          | Some referenceSpace => Resolved (session, referenceSpace)
          end
      end
  | _, _ => Rejected NotInitializedError
  end.

(** [captureFrame], with the frame that the runtime delivers to the
    scheduled callback. *)
Definition captureFrame (net : Network) (client : MultisetClient) (gl : GlEnv)
  (xrFrame : XRFrame) (s : State) : Eff (option ILocalizeAndMapDetails) :=
  match captureFrame_checks s with
  | Rejected e => throw e
  | Resolved (session, referenceSpace) =>
      emit (RequestAnimationFrame session) ;;;
      frameCallback net client gl session referenceSpace xrFrame
  end.

(** [this.renderer.dispose()] on the renderer object [r]. *)
Definition release_renderer (r : ObjId) (w : World) : World :=
  set_renderers (<[r := renderer_dispose (renderers w !!! r)]> (renderers w)) w.

(** [if (b.parentElement) b.parentElement.removeChild(b)] *)
Definition detach (b : ObjId) (w : World) : World :=
  match parentElement w !! b with
  | Some _ => set_parentElement (delete b (parentElement w)) w
  | None => w
  end.

Definition dispose (s : State) : State :=
  let c := ctl s in
  let w := world s in
  let w :=
    match resizeHandler c with
    | Some h => removeResizeListener h w
    | None => w
    end in
  let w :=
    match renderer c with
    | Some r => release_renderer r w
    | None => w
    end in
  let w :=
    match arButton c with
    | Some b => detach b w
    | None => w
    end in
  {| ctl := {| options := options c;
               renderer := None;
               camera := None;
               scene := None;
               animationLoop := None;
               arButton := None;
               resizeHandler := resizeHandler c;
               isSessionActive := isSessionActive c |};
     world := w |}.

(** The two closures that [initialize] adds on [renderer.xr]. *)
Definition sessionListener (ty : XrEventType) (c : WebxrController)
  : WebxrController * list Event :=
  let flag := match ty with sessionstart => true | sessionend => false end in
  ({| options := options c; renderer := renderer c; camera := camera c;
      scene := scene c; animationLoop := animationLoop c; arButton := arButton c;
      resizeHandler := resizeHandler c; isSessionActive := flag |},
   match ty with
   | sessionstart => if onSessionStart (options c) then [EvSessionStart] else []
   | sessionend => if onSessionEnd (options c) then [EvSessionEnd] else []
   end).

(** The runtime dispatches an event of type [ty] on the [xr] manager of
    renderer [r]: every listener registered for [ty] runs, in order. *)
Definition dispatchEvent (r : ObjId) (ty : XrEventType) (s : State) : State * list Event :=
  let listeners := filter (λ l, l.1 = ty) (xr_listeners (renderers (world s) !!! r)) in
  let '(c, evs) :=
    foldl (λ acc _, let '(c', e) := sessionListener ty acc.1 in (c', acc.2 ++ e))
          (ctl s, []) listeners in
  ({| ctl := c; world := world s |}, evs).

(** The listeners that are still registered anywhere for this controller:
    on [window] and on the [xr] manager of every renderer. *)
Definition registered_listeners (w : World) : list ObjId :=
  resizeListeners w ++ (map_to_list (renderers w) ≫= λ kv, (xr_listeners kv.2).*2).

(** ** Vocabulary of the properties *)

(** A list of rows, each [W] bytes long. *)
Definition uniform_rows (W : nat) (rows : list (list byte)) : Prop :=
  Forall (λ r, length r = W) rows.

(** The intrinsics that an event carries to the outside: the payload of
    the intrinsics notification, or the fields of the localization form. *)
Definition intrinsics_of_event (ev : Event) : option ICameraIntrinsicsEvent :=
  match ev with
  | EvCameraIntrinsics i => Some i
  | HttpPostQuery _ _ f =>
      Some {| fx := f_fx f; fy := f_fy f; px := f_px f; py := f_py f;
              width := inject_Z (Z.of_nat (f_width f));
              height := inject_Z (Z.of_nat (f_height f)) |}
  | _ => None
  end.

(** The pinhole formula of the specification, for a view of [w] by [h]
    pixels with projection matrix [P]. *)
Definition pinhole (w h : nat) (P : list Q) (i : ICameraIntrinsicsEvent) : Prop :=
  (fx i == inject_Z (Z.of_nat w) / 2 * idx P 0
   /\ fy i == inject_Z (Z.of_nat h) / 2 * idx P 5
   /\ px i == (1 - idx P 8) * inject_Z (Z.of_nat w) / 2
   /\ py i == (1 - idx P 9) * inject_Z (Z.of_nat h) / 2)%Q
  /\ width i = inject_Z (Z.of_nat w)
  /\ height i = inject_Z (Z.of_nat h).


(** The views that the frame delivers to a capture that passed its checks. *)
Definition delivered_view (s : State) (xrFrame : XRFrame) (view : XRViewWithCamera) : Prop :=
  match captureFrame_checks s with
  | Resolved (_, referenceSpace) =>
      match getViewerPose xrFrame referenceSpace with
      | Some views => In view views
      | None => False
      end
  | Rejected _ => False
  end.

(** ** A concrete scenario *)

Definition demo_config : IMultisetSdkConfig := {|
  clientId := "client"; clientSecret := "secret"; code := "MAP_CODE";
  mapType := map_; endpoints_override := None;
  onAuthorize := true; onFrameCaptured := true; onCameraIntrinsics := true;
  onPoseResult := true; onError := true
|}.

Definition demo_pose (found : bool) : ILocalizeResponse := {|
  poseFound := found;
  position := {| pos_x := 1; pos_y := 2; pos_z := 3 |};
  rotation := {| rot_x := 0; rot_y := 0; rot_z := 0; rot_w := 1 |};
  retrieval_scores := []; num_matches := []; confidence := 9 # 10;
  retrieved_imgs := []; mapIds := Some ["m1"]
|}.

Definition demo_transport_error : JsError := AxiosError "Network Error".

(** The service: hands out the token [abc], answers every query with
    [demo_pose found], and fails every map-detail request. *)
Definition demo_net (found : bool) : Network := {|
  answerAuth := λ _ _ _,
    HttpOk (Some {| token_field := Some "abc"; access_token_field := None |});
  answerQuery := λ _ _ _, HttpOk (demo_pose found);
  answerGet := λ _ _, HttpFail demo_transport_error
|}.

Definition demo_client : MultisetClient :=
  (authorize (demo_net true) (new_MultisetClient demo_config)).1.

Definition demo_frame : IFrameCaptureEvent :=
  {| blob := [x4a; x50]; frame_width := 2; frame_height := 1 |}.

(** A perspective projection, column-major. *)
Definition demo_projection : list Q :=
  [3 # 2; 0; 0; 0;
   0; 2; 0; 0;
   1 # 10; -1 # 5; -1; -1;
   0; 0; -1 # 5; 0]%Q.

Definition demo_intrinsics : ICameraIntrinsicsEvent :=
  getCameraIntrinsics demo_projection (capture_viewport 2 1).

Definition demo_gl : GlEnv := {|
  hasContext := true;
  createFramebuffer := true;
  texel := λ _ n, default x00 (Byte.of_nat (n mod 256));
  toBlob := λ _ _ _ _, Some [x4a; x50]
|}.

Definition demo_view : XRViewWithCamera := {|
  view_camera := Some {| cam_width := 2; cam_height := 1; cam_image := Some 77 |};
  projectionMatrix := demo_projection
|}.

Definition demo_xrFrame : XRFrame := {| getViewerPose := λ _, Some [demo_view] |}.

Definition demo_options : IWebxrControllerOptions := {|
  canvas := Some 1; overlayRoot := None; buttonContainer := Some 2;
  onARButtonCreated := true; onSessionStart := true; onSessionEnd := true
|}.

Definition demo_world : World := {|
  isSecureContext := true; nextId := 10; document_body := 0;
  renderers := ∅; resizeListeners := []; parentElement := ∅
|}.

(** A new controller in a secure page. *)
Definition demo_start : State :=
  {| ctl := new_WebxrController demo_options; world := demo_world |}.

(** The same after [initialize()]. *)
Definition demo_ready : State := (initialize None demo_start).1.

(** The runtime starts a session on renderer [r]: the [xr] manager gets
    its session and reference space, reports presenting, and dispatches
    [sessionstart]. *)
Definition runtime_start_session (r session referenceSpace : ObjId) (s : State) : State :=
  let w := world s in
  let old := renderers w !!! r in
  let started :=
    {| r_canvas := r_canvas old; xr_enabled := xr_enabled old;
       xr_listeners := xr_listeners old; xr_session := Some session;
       xr_referenceSpace := Some referenceSpace; xr_isPresenting := true;
       r_animationLoop := r_animationLoop old; r_disposed := r_disposed old |} in
  (dispatchEvent r sessionstart
     {| ctl := ctl s; world := set_renderers (<[r := started]> (renderers w)) w |}).1.

(** [demo_ready] with a session running on its renderer. *)
Definition demo_active : State :=
  match renderer (ctl demo_ready) with
  | Some r => runtime_start_session r 500 501 demo_ready
  | None => demo_ready
  end.

(** ** src/lib/core/types.ts: map-set details *)

Record IMapSetRotation : Type := { qx : Q; qy : Q; qz : Q; qw : Q }.

Record IRelativePose : Type := {
  rp_position : IPosition;
  rp_rotation : IMapSetRotation
}.

Record IMapCoordinates : Type := { latitude : Q; longitude : Q; altitude : Q }.

Record IMapSetMap : Type := {
  msm_id : string;
  msm_accountId : string;
  msm_mapName : string;
  msm_status : string;
  msm_mapCode : string;
  msm_thumbnail : string;
  msm_storage : Q;
  msm_createdAt : string;
  msm_updatedAt : string;
  msm_mapMesh : IMapMesh;
  msm_coordinates : IMapCoordinates;
  offlineBundleStatus : option string;
  offlineBundle : option string
}.

Record IMapSetMapData : Type := {
  msd_id : string;
  msd_order : Q;
  relativePose : IRelativePose;
  msd_createdAt : string;
  msd_updatedAt : string;
  msd_map : IMapSetMap
}.

Record IMapSet : Type := {
  ms_id : string;
  ms_name : string;
  ms_accountId : string;
  ms_createdAt : string;
  ms_updatedAt : string;
  ms_status : string;
  mapSetData : list IMapSetMapData
}.

Record IMapSetMapsResponse : Type := { mapSet : IMapSet }.

(** ** src/lib/core/index.ts: [fetchMapSetDetails] *)

(** The private [fetchMapSetDetails]; [answer] is what the service says to
    the GET of a map-set URL. *)
Definition fetchMapSetDetails
  (answer : string -> option string -> HttpResult (option IMapSetMapsResponse))
  (c : MultisetClient) (mapSetId : string) : Eff (option IMapSetMapsResponse) :=
  let url := String.append (mapSetDetailsUrl (endpoints c)) mapSetId in
  try_catch
    (http (HttpGet url (accessToken c)) (answer url (accessToken c)))
    (fun error => handleError c error ;;; ret None).

(** ** Vocabulary of the further properties *)

Definition is_query_post (ev : Event) : bool :=
  match ev with
  | HttpPostQuery _ _ _ => true
  | _ => false
  end.

Definition is_error_event (ev : Event) : bool :=
  match ev with
  | EvError _ => true
  | _ => false
  end.

Definition is_pose_event (ev : Event) : bool :=
  match ev with
  | EvPoseResult _ => true
  | _ => false
  end.

(** The bearer token that a request carries. *)
Definition bearer_of (ev : Event) : option (option string) :=
  match ev with
  | HttpPostQuery _ b _ => Some b
  | HttpGet _ b => Some b
  | _ => None
  end.

(** A view that the capture loop does not skip before the read-back: it
    has a camera, the binding gives a texture for it, and neither
    dimension is zero. *)
Definition view_usable (view : XRViewWithCamera) : bool :=
  match view_camera view with
  | Some cam =>
      match cam_image cam with
      | Some _ => negb ((cam_width cam =? 0)%nat || (cam_height cam =? 0)%nat)
      | None => false
      end
  | None => false
  end.

(** The runtime changes what the [xr] manager of renderer [r] answers
    to [getSession], [getReferenceSpace] and [isPresenting]; it does
    not touch listeners, render loop or disposal. *)
Definition runtime_update (r : ObjId) (session referenceSpace : option ObjId)
  (presenting : bool) (s : State) : State :=
  let w := world s in
  let old := renderers w !!! r in
  {| ctl := ctl s;
     world := set_renderers
       (<[r := {| r_canvas := r_canvas old; xr_enabled := xr_enabled old;
                  xr_listeners := xr_listeners old; xr_session := session;
                  xr_referenceSpace := referenceSpace;
                  xr_isPresenting := presenting;
                  r_animationLoop := r_animationLoop old;
                  r_disposed := r_disposed old |}]> (renderers w)) w |}.

(** The states of one controller in a page whose world starts as [w0]:
    calls of [initialize] and [dispose] in any order, interleaved with
    what the runtime does (events on any renderer, changes of session
    state). The host is taken not to alter the renderer, the window
    listeners or the button behind the controller's back. *)
Inductive Reachable (o : IWebxrControllerOptions) (w0 : World) : State -> Prop :=
| reach_new :
    Reachable o w0 {| ctl := new_WebxrController o; world := w0 |}
| reach_initialize (arg : option ObjId) (s : State) :
    Reachable o w0 s -> Reachable o w0 (initialize arg s).1
| reach_dispose (s : State) :
    Reachable o w0 s -> Reachable o w0 (dispose s)
| reach_event (r : ObjId) (ty : XrEventType) (s : State) :
    Reachable o w0 s -> Reachable o w0 (dispatchEvent r ty s).1
| reach_runtime (r : ObjId) (session referenceSpace : option ObjId)
    (presenting : bool) (s : State) :
    Reachable o w0 s ->
    Reachable o w0 (runtime_update r session referenceSpace presenting s).

(** Identities at or above the allocation counter are not in use yet, and
    the containers that [initialize] may pick are below it. *)
Definition heap_fresh (arg : option ObjId) (s : State) : Prop :=
  let w := world s in
  (forall id, nextId w <= id ->
     parentElement w !! id = None /\ id ∉ resizeListeners w)
  /\ document_body w < nextId w
  /\ (forall e, arg = Some e -> e < nextId w)
  /\ (forall e, buttonContainer (options (ctl s)) = Some e -> e < nextId w)
  /\ (forall e, overlayRoot (options (ctl s)) = Some e -> e < nextId w).

(** ** Further concrete inputs *)

(** A service that is down: every request fails. *)
Definition demo_net_down : Network := {|
  answerAuth := λ _ _ _, HttpFail demo_transport_error;
  answerQuery := λ _ _ _, HttpFail demo_transport_error;
  answerGet := λ _ _, HttpFail demo_transport_error
|}.

(** A service whose token answer has an empty [token] and a good
    [access_token]. *)
Definition demo_net_empty_token : Network := {|
  answerAuth := λ _ _ _,
    HttpOk (Some {| token_field := Some EmptyString; access_token_field := Some "abc" |});
  answerQuery := λ _ _ _, HttpOk (demo_pose true);
  answerGet := λ _ _, HttpFail demo_transport_error
|}.

Definition demo_details : IGetMapsDetailsResponse := {|
  _id := "m1"; accountId := "acc"; mapName := "hall";
  location := {| loc_type := "Point"; coordinates := (0, 0, 0)%Q; loc_id := "l1" |};
  status := "active"; storage := 1; createdAt := "2025"; updatedAt := "2025";
  cameraIntrinsics := {| cam_fx := 1; cam_fy := 1; cam_px := 0; cam_py := 0 |};
  mapMesh := {| rawMesh := {| mesh_type := "glb"; meshLink := "raw" |};
                texturedMesh := {| mesh_type := "glb"; meshLink := "tex" |} |};
  resolution := {| res_width := 2; res_height := 1 |};
  globalFeature := "gf"; mapCode := "MAP_CODE";
  source := {| provider := "p"; fileType := "f"; coordinateSystem := "c" |}
|}.

(** A service that also answers the map-detail request. *)
Definition demo_net_details : Network := {|
  answerAuth := answerAuth (demo_net true);
  answerQuery := λ _ _ _, HttpOk (demo_pose true);
  answerGet := λ _ _, HttpOk (Some demo_details)
|}.

(** A pose without map identifiers. *)
Definition demo_pose_no_maps : ILocalizeResponse := {|
  poseFound := true;
  position := position (demo_pose true);
  rotation := rotation (demo_pose true);
  retrieval_scores := []; num_matches := []; confidence := 1 # 2;
  retrieved_imgs := []; mapIds := Some []
|}.

Definition demo_net_no_maps : Network := {|
  answerAuth := answerAuth (demo_net true);
  answerQuery := λ _ _ _, HttpOk demo_pose_no_maps;
  answerGet := λ _ _, HttpFail demo_transport_error
|}.

(** A frame whose viewer pose is null, and one whose only view has no
    camera. *)
Definition demo_xrFrame_no_pose : XRFrame := {| getViewerPose := λ _, None |}.

Definition demo_view_no_camera : XRViewWithCamera :=
  {| view_camera := None; projectionMatrix := demo_projection |}.

Definition demo_xrFrame_no_camera : XRFrame :=
  {| getViewerPose := λ _, Some [demo_view_no_camera; demo_view_no_camera] |}.

(** An encoder that yields nothing. *)
Definition demo_gl_no_blob : GlEnv := {|
  hasContext := true;
  createFramebuffer := true;
  texel := texel demo_gl;
  toBlob := λ _ _ _ _, None
|}.

(** An insecure page. *)
Definition demo_insecure : State :=
  {| ctl := new_WebxrController demo_options;
     world := {| isSecureContext := false; nextId := 10; document_body := 0;
                 renderers := ∅; resizeListeners := []; parentElement := ∅ |} |}.

(** What holds of the controller in every reachable state: the options
    never change; without a renderer no other handle is held; with a
    renderer all handles are held, the renderer was allocated, is not
    disposed, runs the controller's render loop and carries exactly the
    two session listeners of [initialize]. *)
Definition lifecycle_invariant (o : IWebxrControllerOptions) (s : State) : Prop :=
  let c := ctl s in
  options c = o
  /\ match renderer c with
     | None =>
         camera c = None /\ scene c = None /\ animationLoop c = None
         /\ arButton c = None
     | Some r =>
         is_Some (camera c) /\ is_Some (scene c) /\ is_Some (animationLoop c)
         /\ is_Some (arButton c) /\ is_Some (resizeHandler c)
         /\ r < nextId (world s)
         /\ (exists a b, xr_listeners (renderers (world s) !!! r)
                         = [(sessionstart, a); (sessionend, b)])
         /\ r_disposed (renderers (world s) !!! r) = false
         /\ r_animationLoop (renderers (world s) !!! r) = animationLoop c
     end.

(** The [resize] listeners that the controller has on [window]: its
    handler while it is initialized, none otherwise. *)
Definition own_resize_listeners (c : WebxrController) : list ObjId :=
  match renderer c, resizeHandler c with
  | Some _, Some h => [h]
  | _, _ => []
  end.

(** The events of the client, of a read-back, and of the frame callback
    itself. *)
Definition is_client_event (ev : Event) : bool :=
  match ev with
  | EvFrameCaptured _ | EvCameraIntrinsics _ | EvPoseResult _ | EvError _
  | HttpPostQuery _ _ _ | HttpGet _ _ => true
  | _ => false
  end.

Definition is_readback_event (ev : Event) : bool :=
  match ev with
  | CreateFramebuffer | ReadPixels _ _ | DeleteFramebuffer => true
  | _ => false
  end.

Definition is_frame_event (ev : Event) : bool :=
  match ev with
  | RequestAnimationFrame _ | RestoreFramebuffer _ => true
  | _ => false
  end.

(** A client without token, and a frame with two usable views. *)
Definition demo_client_no_token : MultisetClient := new_MultisetClient demo_config.

Definition demo_xrFrame_two_views : XRFrame :=
  {| getViewerPose := λ _, Some [demo_view; demo_view] |}.

(** ** src/lib/webxr/index.ts: [getCameraIntrinsics] in binary64

    A JavaScript [number] is an IEEE 754 binary64 value, and [+], [-],
    [*] and [/] round to nearest, ties to even: these are the kernel's
    primitive [float] and its operations. The entries of the
    [Float32Array] are read as binary64 values (every binary32 value is
    one). The function below follows lines 254 to 272 operation by
    operation, in the order in which JavaScript evaluates them. *)

Record XRViewport64 : Type := {
  vp64_x : float;
  vp64_y : float;
  vp64_width : float;
  vp64_height : float
}.

Record ICameraIntrinsicsEvent64 : Type := {
  fx64 : float;
  fy64 : float;
  px64 : float;
  py64 : float;
  width64 : float;
  height64 : float
}.

(** [p[i]]: past the end of the array it is [undefined], which the
    arithmetic turns into [NaN]. *)
Definition idx64 (p : list float) (i : nat) : float := nth i p nan.

Definition getCameraIntrinsics64 (projectionMatrix : list float) (viewport : XRViewport64)
  : ICameraIntrinsicsEvent64 :=
  let p := projectionMatrix in
  let u0 := ((1 - idx64 p 8) * vp64_width viewport / 2 + vp64_x viewport)%float in
  let v0 := ((1 - idx64 p 9) * vp64_height viewport / 2 + vp64_y viewport)%float in
  let ax := (vp64_width viewport / 2 * idx64 p 0)%float in
  let ay := (vp64_height viewport / 2 * idx64 p 5)%float in
  {| fx64 := ax; fy64 := ay; px64 := u0; py64 := v0;
     width64 := vp64_width viewport; height64 := vp64_height viewport |}.

(** The viewport that [captureFrame] passes: [{ width, height, x: 0, y: 0 }]. *)
Definition capture_viewport64 (width height : float) : XRViewport64 :=
  {| vp64_width := width; vp64_height := height; vp64_x := 0; vp64_y := 0 |}.

(** The rational number that a finite binary64 value stands for; [None]
    for the infinities and [NaN]. *)
Definition float_value (x : float) : option Q :=
  match Prim2SF x with
  | S754_zero _ => Some 0%Q
  | S754_finite s m e => Some (inject_Z (cond_Zopp s (Z.pos m)) * 2 ^ e)%Q
  | S754_infinity _ | S754_nan => None
  end.

(** The pinhole formula of the specification read in exact arithmetic
    on the numbers that the binary64 values stand for: the values of
    [fx], [fy], [px] and [py] are the values of the four formulas. *)
Definition pinhole_exact (w h : float) (P : list float) (i : ICameraIntrinsicsEvent64)
  : Prop :=
  match float_value w, float_value h,
        float_value (idx64 P 0), float_value (idx64 P 5),
        float_value (idx64 P 8), float_value (idx64 P 9),
        float_value (fx64 i), float_value (fy64 i),
        float_value (px64 i), float_value (py64 i) with
  | Some W, Some H, Some p0, Some p5, Some p8, Some p9,
    Some ax, Some ay, Some u0, Some v0 =>
      (ax == W / 2 * p0 /\ ay == H / 2 * p5
       /\ u0 == (1 - p8) * W / 2 /\ v0 == (1 - p9) * H / 2)%Q
      /\ width64 i = w /\ height64 i = h
  | _, _, _, _, _, _, _, _, _, _ => False
  end.


(** Two projection matrices, column-major: one whose entries and
    products are exact in binary64, and one that differs from it in
    [P[8]] and [P[9]], which are [2^-60]. *)
Definition demo_projection64 : list float :=
  [1.5; 0; 0; 0;
   0; 2; 0; 0;
   0.25; -0.5; -1; -1;
   0; 0; -0.25; 0]%float.

Definition demo_projection64_tiny : list float :=
  [1.5; 0; 0; 0;
   0; 2; 0; 0;
   0x1p-60; 0x1p-60; -1; -1;
   0; 0; -0.25; 0]%float.

Definition demo_projection64_centred : list float :=
  [1.5; 0; 0; 0;
   0; 2; 0; 0;
   0; 0; -1; -1;
   0; 0; -0.25; 0]%float.

(** * Properties *)

(** ** The vertical flip *)

Section Flip.
Context (W : nat).

Lemma uniform_rows_concat_length rows :
  uniform_rows W rows -> length (concat rows) = length rows * W.
Proof.
  induction 1 as [|r rows Hr _ IH]; simpl; [reflexivity|].
  rewrite length_app, IH, Hr. reflexivity.
Qed.

Lemma uniform_rows_rev rows : uniform_rows W rows -> uniform_rows W (rev rows).
Proof. apply Forall_rev. Qed.

Lemma uniform_rows_take k rows : uniform_rows W rows -> uniform_rows W (take k rows).
Proof. apply Forall_take. Qed.

(** Row [k] of a buffer laid out row after row. *)
Lemma concat_row rows : uniform_rows W rows ->
  forall k r, rows !! k = Some r -> take W (drop (k * W) (concat rows)) = r.
Proof.
  induction 1 as [|r0 rows Hr0 Hrows IH]; intros k r Hk; [discriminate|].
  destruct k as [|k]; simpl in *.
  - injection Hk as <-. rewrite drop_0, take_app_length'; [reflexivity | congruence].
  - rewrite drop_app_ge by lia.
    replace (W + k * W - length r0) with (k * W) by lia.
    apply IH, Hk.
Qed.

(** Cutting a buffer of [h] rows into its rows. *)
Lemma rows_of_buffer h : forall buf, length buf = h * W ->
  exists rows, buf = concat rows /\ length rows = h /\ uniform_rows W rows.
Proof.
  induction h as [|h IH]; intros buf Hlen.
  - exists []. destruct buf; [repeat split; constructor | discriminate].
  - destruct (IH (drop W buf)) as (rows & Hc & Hl & Hu).
    { rewrite length_drop. simpl in Hlen. lia. }
    exists (take W buf :: rows). repeat split.
    + simpl. rewrite <- Hc. symmetry. apply take_drop.
    + simpl. congruence.
    + constructor; [|exact Hu]. rewrite length_take. simpl in Hlen. lia.
Qed.

End Flip.

(** The loop, started at row [k] with the rows below [k] already in
    place, ends with all rows in reverse order. *)
Lemma flipRows_from width rows : uniform_rows (width * 4) rows ->
  forall n k, k + n = length rows ->
  flipRows width (length rows) (concat rows) (seq k n)
    (replicate (n * (width * 4)) x00 ++ concat (rev (take k rows)))
  = Some (concat (rev rows)).
Proof.
  intros Hu. induction n as [|n IH]; intros k Hk.
  - simpl. rewrite take_ge by lia. reflexivity.
  - destruct (lookup_lt_is_Some_2 rows k) as [r Hr]; [lia|].
    assert (Hlr : length r = width * 4).
    { eapply (Forall_lookup_1 _ _ _ _ Hu). exact Hr. }
    cbn [seq flipRows]. unfold subarray.
    replace (k * width * 4 + width * 4 - k * width * 4) with (width * 4) by lia.
    replace (k * width * 4) with (k * (width * 4)) by lia.
    rewrite (concat_row _ _ Hu _ _ Hr).
    replace ((length rows - k - 1) * width * 4) with (n * (width * 4)) by nia.
    unfold typed_set.
    assert (Hl : length (concat (rev (take k rows))) = k * (width * 4)).
    { rewrite (uniform_rows_concat_length (width * 4))
        by (apply uniform_rows_rev, uniform_rows_take, Hu).
      rewrite length_rev, length_take. f_equal. lia. }
    rewrite decide_True.
    2:{ rewrite length_app, length_replicate, Hl, Hlr. lia. }
    rewrite take_app_le by (rewrite length_replicate; lia).
    rewrite take_replicate, Nat.min_l by lia.
    rewrite drop_app_ge by (rewrite length_replicate; lia).
    rewrite length_replicate, Hlr.
    replace (n * (width * 4) + width * 4 - S n * (width * 4)) with 0 by lia.
    rewrite drop_0.
    rewrite <- (IH (S k)) by lia. f_equal. f_equal.
    rewrite (take_S_r _ _ _ Hr), rev_app_distr. reflexivity.
Qed.

Lemma flipVertical_rows width rows : uniform_rows (width * 4) rows ->
  flipVertical width (length rows) (concat rows) = Some (concat (rev rows)).
Proof.
  intros Hu. unfold flipVertical.
  rewrite <- (flipRows_from width rows Hu (length rows) 0) by lia.
  rewrite (uniform_rows_concat_length _ _ Hu). simpl. rewrite app_nil_r.
  reflexivity.
Qed.

(** The capture never hits the [RangeError] of [set]. *)
Lemma flipVertical_total width height buf :
  length buf = width * height * 4 -> is_Some (flipVertical width height buf).
Proof.
  intros Hlen.
  destruct (rows_of_buffer (width * 4) height buf) as (rows & -> & <- & Hu); [lia|].
  rewrite flipVertical_rows by exact Hu. eexists; reflexivity.
Qed.

(** C7. For every [width], [height] and every RGBA buffer of
    [width * height * 4] bytes, flipping the rows as the capture does and
    flipping the result again gives back the buffer, byte for byte (the
    claim's [width > 0] and [height > 0] are not needed). *)
Theorem flip_involution (width height : nat) (pixelBuffer : list byte) :
  length pixelBuffer = width * height * 4 ->
  flipTwice width height pixelBuffer = Some pixelBuffer.
Proof.
  intros Hlen. unfold flipTwice.
  destruct (rows_of_buffer (width * 4) height pixelBuffer) as (rows & -> & <- & Hu); [lia|].
  rewrite flipVertical_rows by exact Hu. simpl.
  rewrite <- (length_rev rows).
  rewrite flipVertical_rows by (apply uniform_rows_rev, Hu).
  rewrite rev_involutive. reflexivity.
Qed.

Lemma flip_involution_witness :
  flipTwice 2 2 [x01; x02; x03; x04; x05; x06; x07; x08;
                 x09; x0a; x0b; x0c; x0d; x0e; x0f; x10]
  = Some [x01; x02; x03; x04; x05; x06; x07; x08;
          x09; x0a; x0b; x0c; x0d; x0e; x0f; x10].
Proof. apply (flip_involution 2 2). reflexivity. Defined.

Example flipVertical_2x2 :
  flipVertical 1 2 [x01; x02; x03; x04; x05; x06; x07; x08]
  = Some [x05; x06; x07; x08; x01; x02; x03; x04].
Proof. reflexivity. Qed.

(** ** The effect monad *)

Lemma trace_bind {A B : Type} (m : Eff A) (k : A -> Eff B) :
  trace (bind m k) =
  match outcome m with
  | Resolved a => trace m ++ trace (k a)
  | Rejected _ => trace m
  end.
Proof.
  destruct m as [t [a|e]]; simpl; [|reflexivity].
  destruct (k a); reflexivity.
Qed.

Lemma outcome_bind {A B : Type} (m : Eff A) (k : A -> Eff B) :
  outcome (bind m k) =
  match outcome m with
  | Resolved a => outcome (k a)
  | Rejected e => Rejected e
  end.
Proof.
  destruct m as [t [a|e]]; simpl; [|reflexivity].
  destruct (k a); reflexivity.
Qed.

Lemma in_trace_bind {A B : Type} (m : Eff A) (k : A -> Eff B) (ev : Event) :
  In ev (trace (bind m k)) ->
  In ev (trace m) \/ exists a, outcome m = Resolved a /\ In ev (trace (k a)).
Proof.
  rewrite trace_bind. destruct (outcome m) as [a|e] eqn:Hm; [|tauto].
  rewrite in_app_iff. intros [H|H]; [tauto | right; eauto].
Qed.

Lemma in_trace_bind_l {A B : Type} (m : Eff A) (k : A -> Eff B) (ev : Event) :
  In ev (trace m) -> In ev (trace (bind m k)).
Proof.
  rewrite trace_bind. destruct (outcome m); [|tauto].
  rewrite in_app_iff. tauto.
Qed.

Lemma in_trace_bind_r {A B : Type} (m : Eff A) (k : A -> Eff B) (a : A) (ev : Event) :
  outcome m = Resolved a -> In ev (trace (k a)) -> In ev (trace (bind m k)).
Proof.
  intros Hm. rewrite trace_bind, Hm, in_app_iff. tauto.
Qed.

Lemma in_trace_try_catch {A : Type} (m : Eff A) (h : JsError -> Eff A) (ev : Event) :
  In ev (trace m) -> In ev (trace (try_catch m h)).
Proof.
  destruct m as [t [a|e]]; cbn; [tauto|].
  destruct (h e) as [t' o]. cbn. rewrite in_app_iff. tauto.
Qed.

Lemma trace_http {A : Type} (request : Event) (answer : HttpResult A) :
  trace (http request answer) = [request].
Proof. destruct answer; reflexivity. Qed.

Lemma notify_resolves hook ev : outcome (notify hook ev) = Resolved tt.
Proof. destruct hook; reflexivity. Qed.

(** ** The localization client *)

Lemma new_client_has_no_token cfg : accessToken (new_MultisetClient cfg) = None.
Proof. reflexivity. Qed.

(** A rejected [authorize] leaves the token as it was. *)
Lemma authorize_rejected_keeps_token net c e :
  outcome (authorize net c).2 = Rejected e ->
  accessToken (authorize net c).1 = accessToken c.
Proof.
  unfold authorize. cbn [fst snd]. unfold try_catch.
  destruct (authorize_try net c) as [t [tok|e']]; simpl; [discriminate|reflexivity].
Qed.

(** A resolved [authorize] stores a truthy token, the one it returns. *)
Lemma authorize_resolved_stores_token net c tok :
  outcome (authorize net c).2 = Resolved tok ->
  accessToken (authorize net c).1 = Some tok /\ truthy_string (Some tok) = true.
Proof.
  unfold authorize. cbn [fst snd]. unfold try_catch.
  destruct (authorize_try net c) as [t [tok'|e']] eqn:Htry; simpl.
  - intros [= ->]. split; [reflexivity|].
    revert Htry. unfold authorize_try, http.
    destruct (answerAuth _ _ _ _) as [data|err]; simpl; [|discriminate].
    destruct (nullish _ _) as [t0|] eqn:Hn; [|discriminate].
    destruct t0 as [|a t0]; [discriminate|].
    destruct (onAuthorize (config c)); simpl; intros [= _ <-]; reflexivity.
  - destruct (handleError c e') as [t' [[]|?]]; simpl; discriminate.
Qed.

(** A falsy token ([null] or the empty string) stops [localizeWithFrame]
    at its first statement. *)
Lemma localizeWithFrame_falsy_token net c frame intrinsics :
  truthy_string (accessToken c) = false ->
  localizeWithFrame net c frame intrinsics = ([], Rejected MissingTokenError).
Proof. intros Htok. unfold localizeWithFrame. rewrite Htok. reflexivity. Qed.

(** C5. Without a stored access token, [localizeWithFrame] rejects with
    the missing-token error and issues nothing at all: no frame-captured
    notification, no intrinsics notification, no network request. This is
    the state of every client on which no [authorize] has resolved (see
    [new_client_has_no_token] and [authorize_rejected_keeps_token]). *)
Theorem localize_without_token (net : Network) (c : MultisetClient)
  (frame : IFrameCaptureEvent) (intrinsics : ICameraIntrinsicsEvent) :
  accessToken c = None ->
  localizeWithFrame net c frame intrinsics = ([], Rejected MissingTokenError).
Proof.
  intros Htok. apply localizeWithFrame_falsy_token. rewrite Htok. reflexivity.
Qed.

Lemma localize_without_token_witness :
  localizeWithFrame (demo_net true) (new_MultisetClient demo_config)
    demo_frame demo_intrinsics
  = ([], Rejected MissingTokenError).
Proof. apply localize_without_token. reflexivity. Defined.

(** The same after an [authorize] that was rejected, on a new client. *)
Lemma localize_after_rejected_authorize net net' cfg e frame intrinsics :
  outcome (authorize net (new_MultisetClient cfg)).2 = Rejected e ->
  localizeWithFrame net' (authorize net (new_MultisetClient cfg)).1 frame intrinsics
  = ([], Rejected MissingTokenError).
Proof.
  intros H. apply localizeWithFrame_falsy_token.
  rewrite (authorize_rejected_keeps_token _ _ _ H). reflexivity.
Qed.

(** The query of a client that holds a token, when the service answers. *)
Lemma queryLocalization_answered net c frame intrinsics data :
  answerQuery net (queryUrl (endpoints c)) (accessToken c)
    (build_form c frame intrinsics) = HttpOk data ->
  queryLocalization net c frame intrinsics =
  let post := HttpPostQuery (queryUrl (endpoints c)) (accessToken c)
                (build_form c frame intrinsics) in
  if negb (poseFound data) then ([post], Resolved None)
  else match first_mapId data with
       | None => ([post], Resolved (Some {| localizeData := data; mapDetails := None |}))
       | Some m =>
           let fetch := fetchMapDetails net c m in
           (post :: trace fetch,
            match outcome fetch with
            | Resolved (Some d) =>
                Resolved (Some {| localizeData := data; mapDetails := Some d |})
            | Resolved None =>
                Resolved (Some {| localizeData := data; mapDetails := None |})
            | Rejected _ => Resolved None
            end)
       end.
Proof.
  intros Hq. unfold queryLocalization. rewrite Hq. cbn zeta. cbn [http bind].
  destruct (poseFound data); cbn [negb]; [|reflexivity].
  destruct (first_mapId data) as [m|]; [|reflexivity].
  unfold fetchMapDetails, try_catch, http.
  destruct (answerGet net _ _) as [[d|]|err]; try reflexivity.
  unfold handleError. destruct err, (onError (config c)); reflexivity.
Qed.

(** C3. With a stored token and a service that answers [poseFound =
    false], [localizeWithFrame] resolves to [null]: never to an object,
    whatever the other fields of the answer are. *)
Theorem localize_pose_not_found (net : Network) (c : MultisetClient)
  (frame : IFrameCaptureEvent) (intrinsics : ICameraIntrinsicsEvent)
  (data : ILocalizeResponse) :
  truthy_string (accessToken c) = true ->
  answerQuery net (queryUrl (endpoints c)) (accessToken c)
    (build_form c frame intrinsics) = HttpOk data ->
  poseFound data = false ->
  outcome (localizeWithFrame net c frame intrinsics) = Resolved None.
Proof.
  intros Htok Hq Hpose. unfold localizeWithFrame. rewrite Htok. cbn [negb].
  rewrite !outcome_bind.
  rewrite (queryLocalization_answered _ _ _ _ _ Hq). cbn zeta. rewrite Hpose.
  destruct (onFrameCaptured (config c)), (onCameraIntrinsics (config c)); reflexivity.
Qed.

Lemma localize_pose_not_found_witness :
  outcome (localizeWithFrame (demo_net false) demo_client demo_frame demo_intrinsics)
  = Resolved None.
Proof.
  apply (localize_pose_not_found _ _ _ _ (demo_pose false)); reflexivity.
Defined.

(** C4. With a stored token and an answer that has [poseFound = true]
    and a first map identifier [m], the trace holds exactly one
    map-detail request, for [mapDetailsUrl ++ m]; and when that request
    fails with [e], the call issues, after the two notifications and the
    query, that one request, then [e] to the error hook, then the pose
    to the pose hook, and resolves with [localizeData] and no
    [mapDetails]. *)
Theorem localize_detail_fetch_best_effort (net : Network) (c : MultisetClient)
  (frame : IFrameCaptureEvent) (intrinsics : ICameraIntrinsicsEvent)
  (data : ILocalizeResponse) (m : string) (ms : list string) :
  truthy_string (accessToken c) = true ->
  answerQuery net (queryUrl (endpoints c)) (accessToken c)
    (build_form c frame intrinsics) = HttpOk data ->
  poseFound data = true ->
  mapIds data = Some (m :: ms) ->
  let url := String.append (mapDetailsUrl (endpoints c)) m in
  let run := localizeWithFrame net c frame intrinsics in
  List.filter is_map_detail_fetch (trace run) = [HttpGet url (accessToken c)]
  /\ forall e, answerGet net url (accessToken c) = HttpFail e ->
       outcome run = Resolved (Some {| localizeData := data; mapDetails := None |})
       /\ trace run =
            trace (notify (onFrameCaptured (config c)) (EvFrameCaptured frame))
            ++ trace (notify (onCameraIntrinsics (config c)) (EvCameraIntrinsics intrinsics))
            ++ [HttpPostQuery (queryUrl (endpoints c)) (accessToken c)
                  (build_form c frame intrinsics);
                HttpGet url (accessToken c)]
            ++ trace (notify (onError (config c)) (EvError e))
            ++ trace (notify (onPoseResult (config c)) (EvPoseResult data)).
Proof.
  intros Htok Hq Hpose Hids url run. subst run.
  unfold localizeWithFrame. rewrite Htok. cbn [negb].
  rewrite (queryLocalization_answered _ _ _ _ _ Hq). cbn zeta.
  rewrite Hpose. unfold first_mapId. rewrite Hids. cbn [negb].
  unfold fetchMapDetails, try_catch, http. fold url.
  destruct (answerGet net url (accessToken c)) as [[d|]|err] eqn:Hget.
  - split; [|discriminate].
    destruct (onFrameCaptured (config c)), (onCameraIntrinsics (config c)),
      (onPoseResult (config c)); cbn; rewrite ?Hpose; reflexivity.
  - split; [|discriminate].
    destruct (onFrameCaptured (config c)), (onCameraIntrinsics (config c)),
      (onPoseResult (config c)); cbn; rewrite ?Hpose; reflexivity.
  - split; [|intros e [= <-]; split];
      unfold handleError;
      destruct err, (onFrameCaptured (config c)), (onCameraIntrinsics (config c)),
        (onError (config c)), (onPoseResult (config c));
      cbn; rewrite ?Hpose; reflexivity.
Qed.

Lemma localize_detail_fetch_best_effort_witness :
  let run := localizeWithFrame (demo_net true) demo_client demo_frame demo_intrinsics in
  List.filter is_map_detail_fetch (trace run)
    = [HttpGet "https://dev-api.multiset.ai/v1/vps/map/m1" (Some "abc")]
  /\ outcome run
     = Resolved (Some {| localizeData := demo_pose true; mapDetails := None |})
  /\ In (EvError demo_transport_error) (trace run).
Proof.
  destruct (localize_detail_fetch_best_effort (demo_net true) demo_client
              demo_frame demo_intrinsics (demo_pose true) "m1" [])
    as [Hone Hfail]; [reflexivity .. |].
  destruct (Hfail demo_transport_error) as [Hout Htrace]; [reflexivity|].
  split; [exact Hone|]. split; [exact Hout|].
  rewrite Htrace. cbn. tauto.
Defined.

(** ** The controller: lifecycle *)

(** Name the result of each allocation in the goal without unfolding it. *)
Ltac step_alloc :=
  repeat match goal with
         | |- context [alloc ?w] => destruct (alloc w) as [? ?]
         end.

(** Once a renderer is held, [initialize] only hands back the stored
    button: same state, no event. *)
Lemma initialize_when_initialized arg s r :
  renderer (ctl s) = Some r ->
  initialize arg s = (s, ([], Resolved (arButton (ctl s)))).
Proof. intros Hr. unfold initialize. rewrite Hr. reflexivity. Qed.

(** A call of [initialize] that resolves leaves a renderer in place, and
    the button it returns is the stored one. *)
Lemma initialize_resolved arg s s1 t b :
  initialize arg s = (s1, (t, Resolved b)) ->
  is_Some (renderer (ctl s1)) /\ arButton (ctl s1) = b.
Proof.
  unfold initialize.
  destruct (renderer (ctl s)) as [r|] eqn:Hr.
  - intros [= <- _ <-]. rewrite Hr. eauto.
  - destruct (isSecureContext (world s)); cbn [negb]; [|discriminate].
    destruct (canvas (options (ctl s))); step_alloc;
      destruct (onARButtonCreated (options (ctl s)));
      intros [= <- _ <-]; cbn [ctl renderer arButton];
      (split; [eexists|]; reflexivity).
Qed.

(** C6. A second [initialize()], whatever container it is given, after a
    first one that resolved with button [b]: it resolves with the same
    [b], issues no event, and leaves the controller and the world (render
    loop, listeners on [renderer.xr] and on [window], DOM) as they were. *)
Theorem initialize_idempotent (arg1 arg2 : option ObjId) (s s1 : State)
  (t : list Event) (b : option ObjId) :
  initialize arg1 s = (s1, (t, Resolved b)) ->
  initialize arg2 s1 = (s1, ([], Resolved b)).
Proof.
  intros H. destruct (initialize_resolved _ _ _ _ _ H) as [[r Hr] <-].
  apply (initialize_when_initialized _ _ _ Hr).
Qed.

Lemma initialize_idempotent_witness :
  initialize (Some 3) demo_ready = (demo_ready, ([], Resolved (Some 17))).
Proof.
  apply (initialize_idempotent None (Some 3) demo_start demo_ready
           [EvARButtonCreated 17] (Some 17)).
  vm_compute. reflexivity.
Defined.

(** Session events between the two calls change nothing of that: they
    only touch the session flag. *)
Lemma dispatchEvent_keeps_handles r ty s :
  let s' := (dispatchEvent r ty s).1 in
  world s' = world s
  /\ renderer (ctl s') = renderer (ctl s)
  /\ arButton (ctl s') = arButton (ctl s)
  /\ scene (ctl s') = scene (ctl s)
  /\ camera (ctl s') = camera (ctl s).
Proof.
  unfold dispatchEvent.
  generalize (filter (λ l, l.1 = ty) (xr_listeners (renderers (world s) !!! r))).
  intros ls.
  assert (Hfold : forall acc,
    let '(c, _) :=
      foldl (λ acc _, let '(c', e) := sessionListener ty acc.1 in (c', acc.2 ++ e)) acc ls in
    renderer c = renderer acc.1 /\ arButton c = arButton acc.1
    /\ scene c = scene acc.1 /\ camera c = camera acc.1).
  { induction ls as [|l ls IH]; intros [c0 e0]; cbn [foldl]; [tauto|].
    specialize (IH ((sessionListener ty c0).1, e0 ++ (sessionListener ty c0).2)).
    cbn [fst snd] in *.
    replace (let '(c', e) := sessionListener ty c0 in (c', e0 ++ e))
      with ((sessionListener ty c0).1, e0 ++ (sessionListener ty c0).2)
      by (destruct (sessionListener ty c0); reflexivity).
    destruct (foldl _ _ ls) as [c e]. exact IH. }
  specialize (Hfold (ctl s, [])). destruct (foldl _ _ ls) as [c e].
  cbn. tauto.
Qed.

Lemma initialize_after_session_events arg1 arg2 s s1 t b r ty :
  initialize arg1 s = (s1, (t, Resolved b)) ->
  let s2 := (dispatchEvent r ty s1).1 in
  initialize arg2 s2 = (s2, ([], Resolved b)).
Proof.
  intros H s2. destruct (initialize_resolved _ _ _ _ _ H) as [[r1 Hr] <-].
  destruct (dispatchEvent_keeps_handles r ty s1) as (_ & Hren & Hbtn & _).
  fold s2 in Hren, Hbtn. rewrite <- Hbtn.
  apply (initialize_when_initialized _ _ r1). congruence.
Qed.

(** ** The controller: disposal *)

Lemma filter_twice {A : Type} (P : A -> Prop) `{!∀ x, Decision (P x)} (l : list A) :
  filter P (filter P l) = filter P l.
Proof.
  induction l as [|a l IH]; [reflexivity|].
  rewrite (filter_cons P a l). destruct (decide (P a)) as [Ha|Ha]; [|exact IH].
  rewrite (filter_cons P a (filter P l)), decide_True by exact Ha. congruence.
Qed.

Lemma dispose_clears_handles s :
  let c := ctl (dispose s) in
  renderer c = None /\ camera c = None /\ scene c = None
  /\ animationLoop c = None /\ arButton c = None.
Proof. cbn [dispose ctl renderer camera scene animationLoop arButton]. tauto. Qed.

(** After [dispose()] each accessor throws its not-initialized error. *)
Lemma accessors_after_dispose s :
  getScene (ctl (dispose s)) = Rejected SceneNotInitialized
  /\ getCamera (ctl (dispose s)) = Rejected CameraNotInitialized
  /\ getRenderer (ctl (dispose s)) = Rejected RendererNotInitialized.
Proof. repeat split. Qed.

Lemma State_ext (a b : State) : ctl a = ctl b -> world a = world b -> a = b.
Proof. destruct a, b. cbn. congruence. Qed.

(** What the three steps of [dispose()] leave alone. *)
Lemma release_renderer_resizeListeners r w :
  resizeListeners (release_renderer r w) = resizeListeners w.
Proof. reflexivity. Qed.

Lemma detach_resizeListeners b w : resizeListeners (detach b w) = resizeListeners w.
Proof. unfold detach. destruct (parentElement w !! b); reflexivity. Qed.

Lemma detach_renderers b w : renderers (detach b w) = renderers w.
Proof. unfold detach. destruct (parentElement w !! b); reflexivity. Qed.

Lemma detach_lookup b w : parentElement (detach b w) !! b = None.
Proof.
  unfold detach. destruct (parentElement w !! b) eqn:Hp; [|exact Hp].
  apply lookup_delete_eq.
Qed.

Lemma removeResizeListener_renderers h w :
  renderers (removeResizeListener h w) = renderers w.
Proof. reflexivity. Qed.

Lemma world_after_dispose s :
  world (dispose s) =
  let w1 := match resizeHandler (ctl s) with
            | Some h => removeResizeListener h (world s)
            | None => world s
            end in
  let w2 := match renderer (ctl s) with
            | Some r => release_renderer r w1
            | None => w1
            end in
  match arButton (ctl s) with
  | Some b => detach b w2
  | None => w2
  end.
Proof. reflexivity. Qed.

Lemma resizeListeners_after_dispose s :
  resizeListeners (world (dispose s)) =
  match resizeHandler (ctl s) with
  | Some h => filter (λ x, x ≠ h) (resizeListeners (world s))
  | None => resizeListeners (world s)
  end.
Proof.
  rewrite world_after_dispose. cbn zeta.
  destruct (arButton (ctl s)); rewrite ?detach_resizeListeners;
    destruct (renderer (ctl s)); rewrite ?release_renderer_resizeListeners;
    destruct (resizeHandler (ctl s)); reflexivity.
Qed.

(** [dispose()] may be called again: the second call changes nothing. *)
Lemma dispose_twice s : dispose (dispose s) = dispose s.
Proof.
  assert (Hw : world (dispose (dispose s)) = world (dispose s)).
  { rewrite (world_after_dispose (dispose s)).
    change (renderer (ctl (dispose s))) with (@None ObjId).
    change (arButton (ctl (dispose s))) with (@None ObjId).
    change (resizeHandler (ctl (dispose s))) with (resizeHandler (ctl s)).
    cbn zeta.
    pose proof (resizeListeners_after_dispose s) as Hrl.
    destruct (resizeHandler (ctl s)) as [h|]; [|reflexivity].
    unfold removeResizeListener. rewrite Hrl, filter_twice, <- Hrl.
    destruct (world (dispose s)); reflexivity. }
  apply State_ext; [reflexivity | exact Hw].
Qed.

(** The [resize] listener of [initialize] is gone from [window]. *)
Lemma dispose_removes_resize_listener s h :
  resizeHandler (ctl s) = Some h -> h ∉ resizeListeners (world (dispose s)).
Proof.
  intros Hh. rewrite resizeListeners_after_dispose, Hh.
  intros [Hne _]%list_elem_of_filter. congruence.
Qed.

(** The launch button is detached from its parent. *)
Lemma dispose_detaches_button s b :
  arButton (ctl s) = Some b -> parentElement (world (dispose s)) !! b = None.
Proof.
  intros Hb. rewrite world_after_dispose, Hb. apply detach_lookup.
Qed.

Lemma renderers_after_dispose s r :
  renderer (ctl s) = Some r ->
  renderers (world (dispose s))
  = <[r := renderer_dispose (renderers (world s) !!! r)]> (renderers (world s)).
Proof.
  intros Hr. rewrite world_after_dispose, Hr. cbn zeta.
  destruct (arButton (ctl s)); rewrite ?detach_renderers;
    destruct (resizeHandler (ctl s)); reflexivity.
Qed.

(** The renderer is disposed; its render-loop callback is left as it
    was registered. *)
Lemma dispose_releases_renderer s r :
  renderer (ctl s) = Some r ->
  let r' := renderers (world (dispose s)) !!! r in
  r_disposed r' = true
  /\ r_animationLoop r' = r_animationLoop (renderers (world s) !!! r).
Proof.
  intros Hr. cbn zeta. rewrite (renderers_after_dispose _ _ Hr).
  rewrite lookup_total_insert_eq. split; reflexivity.
Qed.

(** The listeners on [renderer.xr] are not touched by [dispose()]. *)
Lemma dispose_keeps_xr_listeners s r :
  renderer (ctl s) = Some r ->
  xr_listeners (renderers (world (dispose s)) !!! r)
  = xr_listeners (renderers (world s) !!! r).
Proof.
  intros Hr. rewrite (renderers_after_dispose _ _ Hr).
  rewrite lookup_total_insert_eq. reflexivity.
Qed.

(** What [dispose()] does to an initialized controller, in one place. *)
Lemma dispose_initialized s r b h :
  renderer (ctl s) = Some r -> arButton (ctl s) = Some b ->
  resizeHandler (ctl s) = Some h ->
  let s' := dispose s in
  (h ∉ resizeListeners (world s'))
  /\ r_disposed (renderers (world s') !!! r) = true
  /\ r_animationLoop (renderers (world s') !!! r)
     = r_animationLoop (renderers (world s) !!! r)
  /\ parentElement (world s') !! b = None
  /\ getScene (ctl s') = Rejected SceneNotInitialized
  /\ getCamera (ctl s') = Rejected CameraNotInitialized
  /\ getRenderer (ctl s') = Rejected RendererNotInitialized
  /\ dispose s' = s'
  /\ xr_listeners (renderers (world s') !!! r) = xr_listeners (renderers (world s) !!! r).
Proof.
  intros Hr Hb Hh s'. subst s'.
  destruct (dispose_releases_renderer s r Hr) as [Hd Hl].
  destruct (accessors_after_dispose s) as (Hs & Hc & Hg).
  split; [exact (dispose_removes_resize_listener s h Hh)|].
  split; [exact Hd|]. split; [exact Hl|].
  split; [exact (dispose_detaches_button s b Hb)|].
  split; [exact Hs|]. split; [exact Hc|]. split; [exact Hg|].
  split; [exact (dispose_twice s) | exact (dispose_keeps_xr_listeners s r Hr)].
Qed.

(** C10. After [dispose()], [hasActiveSession()] is false in every
    state: the session flag may still be set, but no renderer is held. *)
Theorem no_active_session_after_dispose (s : State) :
  hasActiveSession (dispose s) = false.
Proof.
  unfold hasActiveSession. cbn [dispose ctl renderer]. apply andb_false_r.
Qed.

Example dispose_keeps_session_flag :
  isSessionActive (ctl (dispose demo_active)) = true
  /\ hasActiveSession demo_active = true
  /\ hasActiveSession (dispose demo_active) = false.
Proof. vm_compute. tauto. Qed.

(** C8, at a concrete run: [initialize()] in a secure page, then
    [dispose()]. The [resize] listener (16) is gone, the handles are
    cleared and the button (17) is detached, but the [sessionstart] and
    [sessionend] listeners (11, 12) that [initialize()] added on
    [renderer.xr] are still registered; a [sessionend] that the runtime
    dispatches afterwards still runs the controller's listener, which
    calls the host's [onSessionEnd]. *)
Theorem dispose_leaves_session_listeners :
  registered_listeners (world demo_ready) = [16; 11; 12]
  /\ registered_listeners (world (dispose demo_ready)) = [11; 12]
  /\ (dispatchEvent 10 sessionend (dispose demo_ready)).2 = [EvSessionEnd]
  /\ renderer (ctl (dispose demo_ready)) = None
  /\ parentElement (world (dispose demo_ready)) !! 17 = None.
Proof. vm_compute. tauto. Qed.

(** ** The capture: preconditions *)

(** C2. The checks of [captureFrame()] in their order. Without a renderer
    or a camera it rejects with the not-initialized error; initialized
    but with no session on the renderer, with the no-active-session
    error, whatever the reference space is; with a session but no
    reference space, with the no-reference-space error. In each of the
    three the trace is empty: no frame callback was requested and no
    request went to the network. Only when all three pass is a frame
    requested. *)
Theorem captureFrame_preconditions (net : Network) (client : MultisetClient)
  (gl : GlEnv) (xrFrame : XRFrame) (s : State) :
  let run := captureFrame net client gl xrFrame s in
  (renderer (ctl s) = None \/ camera (ctl s) = None ->
   run = ([], Rejected NotInitializedError))
  /\ forall r cam, renderer (ctl s) = Some r -> camera (ctl s) = Some cam ->
     let xr := renderers (world s) !!! r in
     (xr_session xr = None -> run = ([], Rejected NoActiveSessionError))
     /\ (forall session, xr_session xr = Some session ->
         (xr_referenceSpace xr = None -> run = ([], Rejected NoReferenceSpaceError))
         /\ (is_Some (xr_referenceSpace xr) ->
             exists rest, trace run = RequestAnimationFrame session :: rest)).
Proof.
  unfold captureFrame, captureFrame_checks. cbn zeta. split.
  - intros [H|H]; rewrite H; [|destruct (renderer (ctl s))]; reflexivity.
  - intros r cam Hr Hc. rewrite Hr, Hc. split.
    + intros Hs. rewrite Hs. reflexivity.
    + intros session Hs. rewrite Hs. split.
      * intros Hrs. rewrite Hrs. reflexivity.
      * intros [rs Hrs]. rewrite Hrs. rewrite trace_bind. cbn. eauto.
Qed.

Lemma captureFrame_preconditions_witness :
  captureFrame (demo_net true) demo_client demo_gl demo_xrFrame demo_ready
  = ([], Rejected NoActiveSessionError).
Proof.
  destruct (captureFrame_preconditions (demo_net true) demo_client demo_gl
              demo_xrFrame demo_ready) as [_ H].
  destruct (H 10 13) as [Hnone _]; [reflexivity ..|].
  apply Hnone. reflexivity.
Defined.

(** A rejected check and an empty trace go together. *)
Lemma captureFrame_rejected_by_check net client gl xrFrame s e :
  captureFrame_checks s = Rejected e ->
  captureFrame net client gl xrFrame s = ([], Rejected e).
Proof. intros H. unfold captureFrame. rewrite H. reflexivity. Qed.

(** ** The capture: what reaches the client *)

Lemma getCameraTextureAsImage_events gl tex w h ev :
  In ev (trace (getCameraTextureAsImage gl tex w h)) -> intrinsics_of_event ev = None.
Proof.
  unfold getCameraTextureAsImage.
  destruct (hasContext gl), (createFramebuffer gl); cbn [negb];
    try (cbn; tauto); try (cbn; intros [<-|[]]; reflexivity).
  destruct (flipVertical _ _ _); [destruct (decide _)|];
    cbn; intros [<-|[<-|[<-|[]]]]; reflexivity.
Qed.

Lemma getCameraTextureAsImage_frame gl tex w h frame :
  outcome (getCameraTextureAsImage gl tex w h) = Resolved (Some frame) ->
  frame_width frame = w /\ frame_height frame = h.
Proof.
  unfold getCameraTextureAsImage.
  destruct (hasContext gl), (createFramebuffer gl); cbn [negb]; try discriminate.
  destruct (flipVertical _ _ _); [destruct (decide _)|]; cbn; try discriminate.
  intros [= <-]. split; reflexivity.
Qed.

(** The capture reads back exactly [width * height * 4] bytes, so the flip
    inside it never throws. *)
Lemma getCameraTextureAsImage_never_throws gl tex w h :
  exists r, outcome (getCameraTextureAsImage gl tex w h) = Resolved r.
Proof.
  unfold getCameraTextureAsImage.
  destruct (hasContext gl), (createFramebuffer gl); cbn [negb];
    try (eexists; reflexivity).
  destruct (flipVertical_total w h (map (texel gl tex) (seq 0 (w * h * 4)))) as [f Hf].
  { rewrite length_map, length_seq. reflexivity. }
  rewrite Hf. destruct (decide _); eexists; reflexivity.
Qed.

Lemma fetchMapDetails_events net c m ev :
  In ev (trace (fetchMapDetails net c m)) -> intrinsics_of_event ev = None.
Proof.
  unfold fetchMapDetails, try_catch, http, handleError.
  destruct (answerGet net _ _) as [d|err]; [|destruct err, (onError (config c))];
    cbn; intuition (subst; reflexivity).
Qed.

Lemma queryLocalization_events net c frame intrinsics ev :
  In ev (trace (queryLocalization net c frame intrinsics)) ->
  ev = HttpPostQuery (queryUrl (endpoints c)) (accessToken c)
         (build_form c frame intrinsics)
  \/ intrinsics_of_event ev = None.
Proof.
  destruct (answerQuery net (queryUrl (endpoints c)) (accessToken c)
              (build_form c frame intrinsics)) as [data|err] eqn:Hq.
  - rewrite (queryLocalization_answered _ _ _ _ _ Hq). cbn zeta.
    destruct (poseFound data); cbn [negb];
      [|cbn; intros [<-|[]]; left; reflexivity].
    destruct (first_mapId data) as [m|];
      [|cbn; intros [<-|[]]; left; reflexivity].
    cbn [trace fst In]. intros [<-|H]; [tauto|].
    right. eapply fetchMapDetails_events, H.
  - unfold queryLocalization, try_catch, http, handleError. rewrite Hq.
    destruct err, (onError (config c)); cbn; intuition (subst; auto).
Qed.

(** The intrinsics that leave [localizeWithFrame], by the notification
    or in the form, are the ones it was given, with the frame's size. *)
Lemma localizeWithFrame_events net c frame intrinsics ev i :
  In ev (trace (localizeWithFrame net c frame intrinsics)) ->
  intrinsics_of_event ev = Some i ->
  i = intrinsics
  \/ i = {| fx := fx intrinsics; fy := fy intrinsics;
            px := px intrinsics; py := py intrinsics;
            width := inject_Z (Z.of_nat (frame_width frame));
            height := inject_Z (Z.of_nat (frame_height frame)) |}.
Proof.
  unfold localizeWithFrame.
  destruct (truthy_string (accessToken c)); cbn [negb]; [|intros []].
  intros Hin Hev.
  apply in_trace_bind in Hin as [Hin|(_ & _ & Hin)].
  { destruct (onFrameCaptured (config c)); cbn in Hin; [|tauto].
    destruct Hin as [<-|[]]. discriminate. }
  apply in_trace_bind in Hin as [Hin|(_ & _ & Hin)].
  { destruct (onCameraIntrinsics (config c)); cbn in Hin; [|tauto].
    destruct Hin as [<-|[]]. left. cbn in Hev. congruence. }
  apply in_trace_bind in Hin as [Hin|(q & _ & Hin)].
  { apply queryLocalization_events in Hin as [->|Hnone]; [|congruence].
    right. cbn in Hev. congruence. }
  destruct q as [r|]; [|destruct Hin].
  destruct (poseFound (localizeData r)); [|destruct Hin].
  destruct (onPoseResult (config c)); cbn in Hin; [|tauto].
  destruct Hin as [<-|[]]. discriminate.
Qed.

(** Whatever intrinsics leave the view loop were derived from one of the
    views, from its projection matrix and the nonzero size of its camera
    image, at viewport offset zero. *)
Lemma captureViews_handoff net client gl views ev i :
  In ev (trace (captureViews net client gl views)) ->
  intrinsics_of_event ev = Some i ->
  exists view cam,
    In view views /\ view_camera view = Some cam
    /\ cam_width cam <> 0 /\ cam_height cam <> 0
    /\ i = getCameraIntrinsics (projectionMatrix view)
             (capture_viewport (cam_width cam) (cam_height cam)).
Proof.
  intros Hin Hev. induction views as [|view rest IH]; [destruct Hin|].
  assert (Hrest : In ev (trace (captureViews net client gl rest)) ->
    exists view0 cam, In view0 (view :: rest) /\ view_camera view0 = Some cam
      /\ cam_width cam <> 0 /\ cam_height cam <> 0
      /\ i = getCameraIntrinsics (projectionMatrix view0)
               (capture_viewport (cam_width cam) (cam_height cam))).
  { intros H. destruct (IH H) as (v & cam & Hv & Hrest). exists v, cam.
    split; [right; exact Hv | exact Hrest]. }
  revert Hin. cbn [captureViews].
  destruct (view_camera view) as [cam|] eqn:Hcam; [|exact Hrest].
  destruct (cam_image cam) as [tex|]; [|exact Hrest].
  destruct (cam_width cam =? 0)%nat eqn:Hw; [exact Hrest|].
  destruct (cam_height cam =? 0)%nat eqn:Hh; [exact Hrest|].
  cbn [orb]. intros Hin.
  apply Nat.eqb_neq in Hw, Hh.
  apply in_trace_bind in Hin as [Hin|(fd & Hfd & Hin)].
  { apply getCameraTextureAsImage_events in Hin. congruence. }
  destruct fd as [frame|]; [|auto].
  exists view, cam. split; [left; reflexivity|].
  split; [exact Hcam|]. split; [exact Hw|]. split; [exact Hh|].
  apply getCameraTextureAsImage_frame in Hfd as [Hfw Hfh].
  destruct (localizeWithFrame_events _ _ _ _ _ _ Hin Hev) as [->| ->];
    [reflexivity|].
  rewrite Hfw, Hfh. reflexivity.
Qed.

Lemma captureFrame_handoff net client gl xrFrame s ev i :
  In ev (trace (captureFrame net client gl xrFrame s)) ->
  intrinsics_of_event ev = Some i ->
  exists view cam,
    delivered_view s xrFrame view /\ view_camera view = Some cam
    /\ cam_width cam <> 0 /\ cam_height cam <> 0
    /\ i = getCameraIntrinsics (projectionMatrix view)
             (capture_viewport (cam_width cam) (cam_height cam)).
Proof.
  unfold captureFrame, delivered_view.
  destruct (captureFrame_checks s) as [[session rs]|e]; [|intros []].
  intros Hin Hev.
  apply in_trace_bind in Hin as [Hin|(_ & _ & Hin)].
  { destruct Hin as [<-|[]]. discriminate. }
  unfold frameCallback, try_finally in Hin.
  destruct (getViewerPose xrFrame rs) as [views|].
  - destruct (captureViews net client gl views) as [t o] eqn:Hcv.
    cbn [trace fst] in Hin. apply in_app_iff in Hin as [Hin|Hin].
    + apply (captureViews_handoff net client gl views ev i); [|exact Hev].
      rewrite Hcv. exact Hin.
    + destruct (hasContext gl); [|destruct Hin].
      destruct Hin as [<-|[]]. discriminate.
  - cbn in Hin. destruct (hasContext gl); [|destruct Hin].
    destruct Hin as [<-|[]]. discriminate.
Qed.

(** ** The intrinsics *)

Lemma getCameraIntrinsics_pinhole w h P :
  pinhole w h P (getCameraIntrinsics P (capture_viewport w h)).
Proof.
  unfold pinhole, getCameraIntrinsics, capture_viewport.
  cbn [fx fy px py width height vp_x vp_y vp_width vp_height].
  split; [|split; reflexivity].
  split; [|split; [|split]]; ring.
Qed.


(** Where the intrinsics of a capture come from, with the formulas read
    in exact arithmetic ([Q]): whatever intrinsics a capture lets out, to
    the intrinsics hook or in the localization request, belong to one of
    the delivered views, of [w] by [h] pixels and projection matrix [P],
    and are [getCameraIntrinsics] of that view at offset (0, 0). What the
    rounding of binary64 makes of the formulas is the subject of
    [getCameraIntrinsics64], below. *)
Theorem capture_intrinsics_formula (net : Network) (client : MultisetClient)
  (gl : GlEnv) (xrFrame : XRFrame) (s : State) (ev : Event)
  (i : ICameraIntrinsicsEvent) :
  In ev (trace (captureFrame net client gl xrFrame s)) ->
  intrinsics_of_event ev = Some i ->
  exists view cam,
    delivered_view s xrFrame view /\ view_camera view = Some cam
    /\ pinhole (cam_width cam) (cam_height cam) (projectionMatrix view) i.
Proof.
  intros Hin Hev.
  destruct (captureFrame_handoff _ _ _ _ _ _ _ Hin Hev)
    as (view & cam & Hv & Hcam & _ & _ & ->).
  exists view, cam.
  split; [exact Hv|]. split; [exact Hcam|]. apply getCameraIntrinsics_pinhole.
Qed.

Lemma capture_intrinsics_formula_witness :
  exists view cam,
    delivered_view demo_active demo_xrFrame view /\ view_camera view = Some cam
    /\ pinhole (cam_width cam) (cam_height cam) (projectionMatrix view)
         demo_intrinsics.
Proof.
  apply (capture_intrinsics_formula (demo_net true) demo_client demo_gl
           demo_xrFrame demo_active (EvCameraIntrinsics demo_intrinsics)).
  - vm_compute. tauto.
  - reflexivity.
Defined.



(** ** The intrinsics in binary64 *)


(** Where no operation rounds, the values are those of the formulas: a
    view of 640 by 480 pixels with [P[8] = 0.25] and [P[9] = -0.5]. *)
Example pinhole_exact_without_rounding :
  getCameraIntrinsics64 demo_projection64 (capture_viewport64 640 480)
  = {| fx64 := 480; fy64 := 480; px64 := 240; py64 := 360;
       width64 := 640; height64 := 480 |}
  /\ pinhole_exact 640 480 demo_projection64
       (getCameraIntrinsics64 demo_projection64 (capture_viewport64 640 480)).
Proof.
  split; [reflexivity|].
  vm_compute. repeat split.
Qed.


(** The sign of zero: [(1 - 2) * 0 / 2] is [-0], and [px], that value
    plus the offset [0], is [+0]. *)
Example principal_point_zero_sign :
  ((1 - 2) * 0 / 2)%float = (-0)%float
  /\ px64 (getCameraIntrinsics64 [1; 0; 0; 0; 0; 1; 0; 0; 2]%float
             (capture_viewport64 0 480)) = 0%float.
Proof. split; reflexivity. Qed.


(** ** The capture: a usable first view is sent *)

(** With a context, a framebuffer and an encoder that yields bytes, the
    read-back of a texture resolves with a frame of the requested size. *)
Lemma getCameraTextureAsImage_usable gl tex w h :
  hasContext gl = true -> createFramebuffer gl = true ->
  (forall buf, compressToJpeg gl buf w h (7 # 10) <> []) ->
  exists data,
    getCameraTextureAsImage gl tex w h =
    ([CreateFramebuffer; ReadPixels w h; DeleteFramebuffer],
     Resolved (Some {| blob := data; frame_width := w; frame_height := h |})).
Proof.
  intros Hctx Hfb Henc. unfold getCameraTextureAsImage. rewrite Hctx, Hfb.
  cbn [negb].
  destruct (flipVertical_total w h (map (texel gl tex) (seq 0 (w * h * 4)))) as [f Hf].
  { rewrite length_map, length_seq. reflexivity. }
  rewrite Hf.
  exists (compressToJpeg gl f w h (7 # 10)).
  destruct (decide (length (compressToJpeg gl f w h (7 # 10)) = 0)) as [Hz|Hnz].
  - apply nil_length_inv in Hz. destruct (Henc f Hz).
  - reflexivity.
Qed.

Lemma queryLocalization_posts net c frame intrinsics :
  In (HttpPostQuery (queryUrl (endpoints c)) (accessToken c)
        (build_form c frame intrinsics))
     (trace (queryLocalization net c frame intrinsics)).
Proof.
  unfold queryLocalization.
  apply in_trace_try_catch, in_trace_bind_l.
  rewrite trace_http. left. reflexivity.
Qed.

(** When the checks pass and the first delivered view has a camera
    image of nonzero size that reads back and encodes, a client that
    holds a token sends the query for that view: its size and the
    intrinsics derived from its projection matrix. *)
Lemma captureFrame_sends_first_view net client gl xrFrame s session rs view rest cam tex :
  captureFrame_checks s = Resolved (session, rs) ->
  getViewerPose xrFrame rs = Some (view :: rest) ->
  view_camera view = Some cam -> cam_image cam = Some tex ->
  cam_width cam <> 0 -> cam_height cam <> 0 ->
  hasContext gl = true -> createFramebuffer gl = true ->
  (forall buf, compressToJpeg gl buf (cam_width cam) (cam_height cam) (7 # 10) <> []) ->
  truthy_string (accessToken client) = true ->
  exists data,
    let frame := {| blob := data; frame_width := cam_width cam;
                    frame_height := cam_height cam |} in
    let intrinsics := getCameraIntrinsics (projectionMatrix view)
                        (capture_viewport (cam_width cam) (cam_height cam)) in
    In (HttpPostQuery (queryUrl (endpoints client)) (accessToken client)
          (build_form client frame intrinsics))
       (trace (captureFrame net client gl xrFrame s))
    /\ outcome (captureFrame net client gl xrFrame s)
       = outcome (localizeWithFrame net client frame intrinsics).
Proof.
  intros Hchk Hpose Hcam Himg Hw Hh Hctx Hfb Henc Htok.
  destruct (getCameraTextureAsImage_usable gl tex _ _ Hctx Hfb Henc) as [data Hread].
  exists data. cbn zeta.
  set (frame := {| blob := data; frame_width := cam_width cam;
                   frame_height := cam_height cam |}).
  set (intrinsics := getCameraIntrinsics (projectionMatrix view)
                       (capture_viewport (cam_width cam) (cam_height cam))).
  assert (Hviews : captureViews net client gl (view :: rest) =
            bind (getCameraTextureAsImage gl tex (cam_width cam) (cam_height cam))
              (fun _ => localizeWithFrame net client frame intrinsics)).
  { cbn [captureViews]. rewrite Hcam, Himg.
    apply Nat.eqb_neq in Hw, Hh. rewrite Hw, Hh. cbn [orb].
    rewrite Hread. reflexivity. }
  assert (Hquery : In (HttpPostQuery (queryUrl (endpoints client)) (accessToken client)
                         (build_form client frame intrinsics))
                      (trace (localizeWithFrame net client frame intrinsics))).
  { unfold localizeWithFrame. rewrite Htok. cbn [negb].
    eapply in_trace_bind_r; [apply notify_resolves|].
    eapply in_trace_bind_r; [apply notify_resolves|].
    apply in_trace_bind_l, queryLocalization_posts. }
  unfold captureFrame. rewrite Hchk. unfold frameCallback. rewrite Hpose, Hviews, Hread.
  rewrite Hctx. unfold try_finally.
  destruct (localizeWithFrame net client frame intrinsics) as [t o] eqn:Hloc.
  cbn [trace fst] in Hquery. cbn. split; [|reflexivity].
  right. right. right. right. rewrite in_app_iff. left. exact Hquery.
Qed.

(** ** The scenario, end to end *)

(** Authorize, initialize, session start, then one capture of a view
    of 2 by 1 pixels: one query leaves, with the size of the view and
    the intrinsics of the formula, and the pose of the service comes
    back. *)
Example capture_end_to_end :
  let run := captureFrame (demo_net true) demo_client demo_gl demo_xrFrame demo_active in
  List.filter (λ ev, match ev with HttpPostQuery _ _ _ => true | _ => false end) (trace run)
    = [HttpPostQuery "https://dev-api.multiset.ai/v1/vps/map/query-form" (Some "abc")
         (build_form demo_client demo_frame demo_intrinsics)]
  /\ outcome run
     = Resolved (Some {| localizeData := demo_pose true; mapDetails := None |}).
Proof. vm_compute. split; reflexivity. Qed.

(** Before any session starts the same call is refused, and after
    [dispose()] it is refused as not initialized. *)
Example capture_outside_session :
  captureFrame (demo_net true) demo_client demo_gl demo_xrFrame demo_ready
    = ([], Rejected NoActiveSessionError)
  /\ captureFrame (demo_net true) demo_client demo_gl demo_xrFrame (dispose demo_active)
    = ([], Rejected NotInitializedError).
Proof. vm_compute. split; reflexivity. Qed.

(** * Further properties *)

(** ** The client: authorization *)

Lemma authorize_try_request net c :
  exists rest, trace (authorize_try net c) =
    HttpPostAuth (authUrl (endpoints c)) (clientId (config c)) (clientSecret (config c))
    :: rest.
Proof.
  unfold authorize_try. rewrite trace_bind, trace_http.
  destruct (outcome _); cbn; eauto.
Qed.

(** What [authorize] settles with, read off the answer alone. *)
Lemma authorize_outcome net c :
  outcome (authorize net c).2 =
  match answerAuth net (authUrl (endpoints c)) (clientId (config c))
          (clientSecret (config c)) with
  | HttpFail e => Rejected e
  | HttpOk data =>
      match nullish (data ≫= token_field) (data ≫= access_token_field) with
      | Some t => if truthy_string (Some t) then Resolved t else Rejected NoTokenReturned
      | None => Rejected NoTokenReturned
      end
  end.
Proof.
  unfold authorize, authorize_try, http, try_catch, handleError. cbn [snd].
  destruct (answerAuth net _ _ _) as [data|e]; cbn.
  - destruct (nullish _ _) as [t|]; cbn.
    + destruct t as [|a t]; cbn.
      * destruct (onError (config c)); reflexivity.
      * destruct (onAuthorize (config c)); reflexivity.
    + destruct (onError (config c)); reflexivity.
  - destruct e, (onError (config c)); reflexivity.
Qed.

(** X1. When the answer of the token endpoint has a [token] field, that
    field alone decides: a non-empty one is returned, an empty one makes
    [authorize] reject with the no-token error, and in both cases
    [access_token] is not looked at. *)
Theorem authorize_token_field_decides (net : Network) (c : MultisetClient)
  (body : AuthBody) (t : string) :
  answerAuth net (authUrl (endpoints c)) (clientId (config c)) (clientSecret (config c))
    = HttpOk (Some body) ->
  token_field body = Some t ->
  outcome (authorize net c).2 =
    (if truthy_string (Some t) then Resolved t else Rejected NoTokenReturned)
  /\ (truthy_string (Some t) = false -> accessToken (authorize net c).1 = accessToken c).
Proof.
  intros Hans Htok.
  pose proof (authorize_outcome net c) as Hout. rewrite Hans in Hout.
  cbn [mbind option_bind nullish] in Hout. rewrite Htok in Hout. cbn [nullish] in Hout.
  split; [exact Hout|].
  intros Hfalsy. rewrite Hfalsy in Hout.
  apply (authorize_rejected_keeps_token _ _ _ Hout).
Qed.

Lemma authorize_token_field_decides_witness :
  outcome (authorize demo_net_empty_token (new_MultisetClient demo_config)).2
    = Rejected NoTokenReturned
  /\ accessToken (authorize demo_net_empty_token (new_MultisetClient demo_config)).1 = None.
Proof.
  destruct (authorize_token_field_decides demo_net_empty_token
              (new_MultisetClient demo_config)
              {| token_field := Some EmptyString; access_token_field := Some "abc" |}
              EmptyString) as [Hout Htok]; [reflexivity .. |].
  split; [exact Hout | apply Htok; reflexivity].
Defined.

(** X2. A rejected [authorize] made its one request, handed the very
    error it rejects with to the error hook (when there is one), issued
    nothing else, and left the client as it was. *)
Theorem authorize_rejection_notifies_and_propagates (net : Network)
  (c : MultisetClient) (e : JsError) :
  outcome (authorize net c).2 = Rejected e ->
  trace (authorize net c).2 =
    HttpPostAuth (authUrl (endpoints c)) (clientId (config c)) (clientSecret (config c))
    :: trace (notify (onError (config c)) (EvError e))
  /\ (authorize net c).1 = c.
Proof.
  unfold authorize, authorize_try, http, try_catch, handleError. cbn [fst snd].
  destruct (answerAuth net _ _ _) as [data|e0]; cbn.
  - destruct (nullish _ _) as [t|]; cbn.
    + destruct t as [|a t]; cbn.
      * destruct (onError (config c)); cbn; intros [= <-]; split; reflexivity.
      * destruct (onAuthorize (config c)); discriminate.
    + destruct (onError (config c)); cbn; intros [= <-]; split; reflexivity.
  - destruct e0, (onError (config c)); cbn; intros [= <-]; split; reflexivity.
Qed.

Lemma authorize_rejection_notifies_and_propagates_witness :
  trace (authorize demo_net_down (new_MultisetClient demo_config)).2 =
    [HttpPostAuth "https://dev-api.multiset.ai/v1/m2m/token" "client" "secret";
     EvError demo_transport_error]
  /\ (authorize demo_net_down (new_MultisetClient demo_config)).1
     = new_MultisetClient demo_config.
Proof.
  apply (authorize_rejection_notifies_and_propagates demo_net_down
           (new_MultisetClient demo_config) demo_transport_error).
  reflexivity.
Defined.

(** X3. A resolved [authorize] made its one request, told the authorize
    hook the token it returns, raised no error, and stored exactly that
    token, leaving configuration and endpoints alone. *)
Theorem authorize_success_stores_and_notifies (net : Network) (c : MultisetClient)
  (t : string) :
  outcome (authorize net c).2 = Resolved t ->
  trace (authorize net c).2 =
    HttpPostAuth (authUrl (endpoints c)) (clientId (config c)) (clientSecret (config c))
    :: trace (notify (onAuthorize (config c)) (EvAuthorize t))
  /\ (authorize net c).1 =
     {| config := config c; endpoints := endpoints c; accessToken := Some t |}
  /\ t <> EmptyString.
Proof.
  unfold authorize, authorize_try, http, try_catch, handleError. cbn [fst snd].
  destruct (answerAuth net _ _ _) as [data|e0]; cbn.
  - destruct (nullish _ _) as [t0|]; cbn.
    + destruct t0 as [|a t0]; cbn.
      * destruct (onError (config c)); discriminate.
      * destruct (onAuthorize (config c)); cbn; intros [= <-];
          (split; [reflexivity | split; [reflexivity | discriminate]]).
    + destruct (onError (config c)); discriminate.
  - destruct e0, (onError (config c)); discriminate.
Qed.

Lemma authorize_success_stores_and_notifies_witness :
  trace (authorize (demo_net true) (new_MultisetClient demo_config)).2 =
    [HttpPostAuth "https://dev-api.multiset.ai/v1/m2m/token" "client" "secret";
     EvAuthorize "abc"]
  /\ (authorize (demo_net true) (new_MultisetClient demo_config)).1 =
     {| config := demo_config; endpoints := DEFAULT_ENDPOINTS; accessToken := Some "abc" |}
  /\ "abc" <> EmptyString.
Proof.
  apply (authorize_success_stores_and_notifies (demo_net true)
           (new_MultisetClient demo_config) "abc").
  reflexivity.
Defined.

(** ** The client: localization *)

Lemma queryLocalization_failed net c frame intrinsics e :
  answerQuery net (queryUrl (endpoints c)) (accessToken c)
    (build_form c frame intrinsics) = HttpFail e ->
  queryLocalization net c frame intrinsics =
  (HttpPostQuery (queryUrl (endpoints c)) (accessToken c) (build_form c frame intrinsics)
   :: trace (notify (onError (config c)) (EvError e)),
   Resolved None).
Proof.
  intros Hq. unfold queryLocalization, try_catch, http, handleError. rewrite Hq.
  cbn [bind]. destruct e, (onError (config c)); reflexivity.
Qed.

Lemma fetchMapDetails_resolves net c m :
  exists d, outcome (fetchMapDetails net c m) = Resolved d.
Proof.
  unfold fetchMapDetails, try_catch, http, handleError.
  destruct (answerGet net _ _) as [d|err]; [eexists; reflexivity|].
  destruct err, (onError (config c)); eexists; reflexivity.
Qed.

(** The query never rejects, and a non-null result is the answer of the
    service, with a pose. *)
Lemma queryLocalization_outcome net c frame intrinsics :
  outcome (queryLocalization net c frame intrinsics) = Resolved None
  \/ exists r,
       outcome (queryLocalization net c frame intrinsics) = Resolved (Some r)
       /\ answerQuery net (queryUrl (endpoints c)) (accessToken c)
            (build_form c frame intrinsics) = HttpOk (localizeData r)
       /\ poseFound (localizeData r) = true.
Proof.
  destruct (answerQuery net (queryUrl (endpoints c)) (accessToken c)
              (build_form c frame intrinsics)) as [data|e] eqn:Hq.
  - rewrite (queryLocalization_answered _ _ _ _ _ Hq). cbn zeta.
    destruct (poseFound data) eqn:Hpose; cbn [negb]; [|left; reflexivity].
    right. destruct (first_mapId data) as [m|].
    + destruct (fetchMapDetails_resolves net c m) as [[d|] Hd];
        cbn [outcome snd]; rewrite Hd; eexists; (split; [reflexivity|]); cbn; auto.
    + eexists. split; [reflexivity|]. cbn. auto.
  - rewrite (queryLocalization_failed _ _ _ _ _ Hq). left. reflexivity.
Qed.

(** [localizeWithFrame] past its token check. *)
Lemma localizeWithFrame_with_token net c frame intrinsics :
  truthy_string (accessToken c) = true ->
  localizeWithFrame net c frame intrinsics =
  let q := queryLocalization net c frame intrinsics in
  (trace (notify (onFrameCaptured (config c)) (EvFrameCaptured frame))
   ++ trace (notify (onCameraIntrinsics (config c)) (EvCameraIntrinsics intrinsics))
   ++ trace q
   ++ match outcome q with
      | Resolved (Some r) =>
          if poseFound (localizeData r)
          then trace (notify (onPoseResult (config c)) (EvPoseResult (localizeData r)))
          else []
      | _ => []
      end,
   outcome q).
Proof.
  intros Htok. unfold localizeWithFrame. rewrite Htok. cbn [negb]. cbn zeta.
  destruct (queryLocalization net c frame intrinsics) as [t [[r|]|e]];
    destruct (onFrameCaptured (config c)), (onCameraIntrinsics (config c));
    cbn; try (destruct (poseFound (localizeData r)), (onPoseResult (config c)); cbn);
    rewrite ?app_nil_r; reflexivity.
Qed.

Lemma filter_notify (P : Event -> bool) hook ev :
  P ev = false -> List.filter P (trace (notify hook ev)) = [].
Proof. intros H. destruct hook; cbn; rewrite ?H; reflexivity. Qed.

Lemma fetchMapDetails_trace net c m :
  exists rest,
    trace (fetchMapDetails net c m)
      = HttpGet (String.append (mapDetailsUrl (endpoints c)) m) (accessToken c) :: rest
    /\ Forall (λ ev, is_error_event ev = true) rest.
Proof.
  unfold fetchMapDetails, try_catch, http, handleError.
  destruct (answerGet net _ _) as [d|err]; [exists []; split; [reflexivity|constructor]|].
  destruct err, (onError (config c)); cbn; eexists; split; try reflexivity;
    repeat constructor.
Qed.

(** The trace of the query: the POST, then only the GET of the details
    and errors. *)
Lemma queryLocalization_trace net c frame intrinsics :
  exists rest,
    trace (queryLocalization net c frame intrinsics)
      = HttpPostQuery (queryUrl (endpoints c)) (accessToken c)
          (build_form c frame intrinsics) :: rest
    /\ Forall (λ ev, match ev with
                     | HttpGet _ b => b = accessToken c
                     | EvError _ => True
                     | _ => False
                     end) rest.
Proof.
  destruct (answerQuery net (queryUrl (endpoints c)) (accessToken c)
              (build_form c frame intrinsics)) as [data|e] eqn:Hq.
  - rewrite (queryLocalization_answered _ _ _ _ _ Hq). cbn zeta.
    destruct (poseFound data); cbn [negb];
      [|exists []; split; [reflexivity|constructor]].
    destruct (first_mapId data) as [m|]; [|exists []; split; [reflexivity|constructor]].
    destruct (fetchMapDetails_trace net c m) as (rest & Hrest & Herr).
    exists (trace (fetchMapDetails net c m)). split; [reflexivity|].
    rewrite Hrest. constructor; [reflexivity|].
    eapply Forall_impl; [exact Herr|]. intros [] Hev; try discriminate. exact I.
  - rewrite (queryLocalization_failed _ _ _ _ _ Hq).
    eexists. split; [reflexivity|].
    destruct (onError (config c)); cbn; repeat constructor.
Qed.

Lemma localizeWithFrame_outcome net c frame intrinsics :
  outcome (localizeWithFrame net c frame intrinsics) =
  if truthy_string (accessToken c)
  then outcome (queryLocalization net c frame intrinsics)
  else Rejected MissingTokenError.
Proof.
  destruct (truthy_string (accessToken c)) eqn:Htok.
  - rewrite (localizeWithFrame_with_token _ _ _ _ Htok). reflexivity.
  - rewrite (localizeWithFrame_falsy_token _ _ _ _ Htok). reflexivity.
Qed.

Lemma queryLocalization_resolves net c frame intrinsics :
  exists r, outcome (queryLocalization net c frame intrinsics) = Resolved r.
Proof.
  destruct (queryLocalization_outcome net c frame intrinsics) as [H|(r & H & _)];
    rewrite H; eauto.
Qed.

Lemma queryLocalization_rest_kinds (P : Event -> bool) (b : option string)
  (rest : list Event) :
  Forall (λ ev, match ev with
                | HttpGet _ b' => b' = b
                | EvError _ => True
                | _ => False
                end) rest ->
  (forall url b', P (HttpGet url b') = false) ->
  (forall e, P (EvError e) = false) ->
  List.filter P rest = [].
Proof.
  intros Hrest Hget Herr. induction Hrest as [|ev rest Hev _ IH]; [reflexivity|].
  destruct ev; try destruct Hev; cbn; rewrite ?Hget, ?Herr; exact IH.
Qed.

(** The queries that a call sends: one with a token, none without. *)
Lemma localizeWithFrame_posts net c frame intrinsics :
  List.filter is_query_post (trace (localizeWithFrame net c frame intrinsics)) =
  if truthy_string (accessToken c)
  then [HttpPostQuery (queryUrl (endpoints c)) (accessToken c)
          (build_form c frame intrinsics)]
  else [].
Proof.
  destruct (truthy_string (accessToken c)) eqn:Htok.
  2:{ rewrite (localizeWithFrame_falsy_token _ _ _ _ Htok). reflexivity. }
  rewrite (localizeWithFrame_with_token _ _ _ _ Htok). cbn [trace fst].
  destruct (queryLocalization_trace net c frame intrinsics) as (rest & Hq & Hrest).
  cbn zeta. rewrite Hq.
  rewrite !List.filter_app, !filter_notify by reflexivity. cbn.
  rewrite (queryLocalization_rest_kinds is_query_post _ _ Hrest) by reflexivity.
  destruct (outcome _) as [[r|]|]; try reflexivity.
  destruct (poseFound (localizeData r)); [|reflexivity].
  rewrite filter_notify by reflexivity. reflexivity.
Qed.

(** At most one detail request per call. *)
Lemma localizeWithFrame_gets net c frame intrinsics :
  length (List.filter is_map_detail_fetch
            (trace (localizeWithFrame net c frame intrinsics))) <= 1.
Proof.
  destruct (truthy_string (accessToken c)) eqn:Htok.
  2:{ rewrite (localizeWithFrame_falsy_token _ _ _ _ Htok). cbn. lia. }
  rewrite (localizeWithFrame_with_token _ _ _ _ Htok). cbn [trace fst]. cbn zeta.
  rewrite !List.filter_app, !filter_notify by reflexivity. cbn [app].
  assert (Hq : length (List.filter is_map_detail_fetch
                         (trace (queryLocalization net c frame intrinsics))) <= 1).
  { destruct (answerQuery net (queryUrl (endpoints c)) (accessToken c)
                (build_form c frame intrinsics)) as [data|e] eqn:Hans.
    - rewrite (queryLocalization_answered _ _ _ _ _ Hans). cbn zeta.
      destruct (poseFound data); cbn [negb]; [|cbn; lia].
      destruct (first_mapId data) as [m|]; [|cbn; lia].
      destruct (fetchMapDetails_trace net c m) as (rest & -> & Herr).
      cbn. assert (Hnil : List.filter is_map_detail_fetch rest = []).
      { induction Herr as [|ev rest Hev _ IH]; [reflexivity|].
        destruct ev; try discriminate. exact IH. }
      rewrite Hnil. cbn. lia.
    - rewrite (queryLocalization_failed _ _ _ _ _ Hans).
      destruct (onError (config c)); cbn; lia. }
  rewrite length_app.
  destruct (outcome _) as [[r|]|]; cbn [length List.filter]; try lia.
  destruct (poseFound (localizeData r)); cbn [length List.filter]; try lia.
  rewrite filter_notify by reflexivity. cbn [length]. lia.
Qed.

(** Everything that a call issues is a notification or a request. *)
Lemma localizeWithFrame_client_events net c frame intrinsics :
  Forall (λ ev, is_client_event ev = true)
    (trace (localizeWithFrame net c frame intrinsics)).
Proof.
  destruct (truthy_string (accessToken c)) eqn:Htok.
  2:{ rewrite (localizeWithFrame_falsy_token _ _ _ _ Htok). constructor. }
  rewrite (localizeWithFrame_with_token _ _ _ _ Htok). cbn [trace fst]. cbn zeta.
  destruct (queryLocalization_trace net c frame intrinsics) as (rest & -> & Hrest).
  rewrite !Forall_app. split; [|split; [|split]].
  - destruct (onFrameCaptured (config c)); repeat constructor.
  - destruct (onCameraIntrinsics (config c)); repeat constructor.
  - constructor; [reflexivity|].
    eapply Forall_impl; [exact Hrest|]. intros [] H; try destruct H; reflexivity.
  - destruct (outcome _) as [[r|]|]; try constructor.
    destruct (poseFound (localizeData r)); [|constructor].
    destruct (onPoseResult (config c)); repeat constructor.
Qed.

(** X4. With a stored token, [localizeWithFrame] never rejects: whatever
    the service does (failure of the query, of the detail request, any
    answer), the promise resolves. *)
Theorem localize_never_rejects_with_token (net : Network) (c : MultisetClient)
  (frame : IFrameCaptureEvent) (intrinsics : ICameraIntrinsicsEvent) :
  truthy_string (accessToken c) = true ->
  exists r, outcome (localizeWithFrame net c frame intrinsics) = Resolved r.
Proof.
  intros Htok. rewrite localizeWithFrame_outcome, Htok.
  apply queryLocalization_resolves.
Qed.

Lemma localize_never_rejects_with_token_witness :
  exists r, outcome (localizeWithFrame demo_net_down demo_client demo_frame
                       demo_intrinsics) = Resolved r.
Proof. apply localize_never_rejects_with_token. reflexivity. Defined.

(** X5. When the query itself fails with [e], the call issues the two
    notifications, the POST and [e] to the error hook, nothing more (no
    detail request, no pose notification), and resolves to [null]. *)
Theorem localize_query_failure_is_absorbed (net : Network) (c : MultisetClient)
  (frame : IFrameCaptureEvent) (intrinsics : ICameraIntrinsicsEvent) (e : JsError) :
  truthy_string (accessToken c) = true ->
  answerQuery net (queryUrl (endpoints c)) (accessToken c)
    (build_form c frame intrinsics) = HttpFail e ->
  localizeWithFrame net c frame intrinsics =
  (trace (notify (onFrameCaptured (config c)) (EvFrameCaptured frame))
   ++ trace (notify (onCameraIntrinsics (config c)) (EvCameraIntrinsics intrinsics))
   ++ [HttpPostQuery (queryUrl (endpoints c)) (accessToken c)
         (build_form c frame intrinsics)]
   ++ trace (notify (onError (config c)) (EvError e)),
   Resolved None).
Proof.
  intros Htok Hq. rewrite (localizeWithFrame_with_token _ _ _ _ Htok).
  rewrite (queryLocalization_failed _ _ _ _ _ Hq). cbn. rewrite app_nil_r. reflexivity.
Qed.

Lemma localize_query_failure_is_absorbed_witness :
  localizeWithFrame demo_net_down demo_client demo_frame demo_intrinsics =
  ([EvFrameCaptured demo_frame; EvCameraIntrinsics demo_intrinsics;
    HttpPostQuery "https://dev-api.multiset.ai/v1/vps/map/query-form" (Some "abc")
      (build_form demo_client demo_frame demo_intrinsics);
    EvError demo_transport_error],
   Resolved None).
Proof.
  apply (localize_query_failure_is_absorbed demo_net_down demo_client demo_frame
           demo_intrinsics demo_transport_error); reflexivity.
Defined.

(** X6. A non-null result of [localizeWithFrame] is always a found
    pose: its [localizeData] is the answer that the service gave to the
    query and has [poseFound = true]; and the pose hook is told exactly
    when the result is non-null. *)
Theorem localize_result_is_found_pose (net : Network) (c : MultisetClient)
  (frame : IFrameCaptureEvent) (intrinsics : ICameraIntrinsicsEvent) :
  let run := localizeWithFrame net c frame intrinsics in
  (forall r, outcome run = Resolved (Some r) ->
     answerQuery net (queryUrl (endpoints c)) (accessToken c)
       (build_form c frame intrinsics) = HttpOk (localizeData r)
     /\ poseFound (localizeData r) = true
     /\ List.filter is_pose_event (trace run)
        = trace (notify (onPoseResult (config c)) (EvPoseResult (localizeData r))))
  /\ (outcome run = Resolved None -> List.filter is_pose_event (trace run) = []).
Proof.
  cbn zeta. destruct (truthy_string (accessToken c)) eqn:Htok.
  2:{ rewrite (localizeWithFrame_falsy_token _ _ _ _ Htok). split; [|reflexivity].
      intros r [=]. }
  rewrite (localizeWithFrame_with_token _ _ _ _ Htok). cbn [outcome trace fst snd].
  assert (Hnopose : List.filter is_pose_event
            (trace (queryLocalization net c frame intrinsics)) = []).
  { destruct (queryLocalization_trace net c frame intrinsics) as (rest & -> & Hrest).
    cbn. induction Hrest as [|ev rest Hev _ IH]; [reflexivity|].
    destruct ev; try destruct Hev; exact IH. }
  rewrite !List.filter_app, Hnopose, !filter_notify by reflexivity. cbn [app].
  destruct (queryLocalization_outcome net c frame intrinsics) as [H|(r & H & Hans & Hpose)];
    rewrite H.
  - split; [intros r [=] | reflexivity].
  - split; [|discriminate]. intros r' [= <-]. rewrite Hpose.
    split; [exact Hans|]. split; [reflexivity|].
    destruct (onPoseResult (config c)); reflexivity.
Qed.

(** X7. When the detail request answers, its body (if any) becomes
    [mapDetails] of the result, and no error is reported. *)
Theorem localize_attaches_map_details (net : Network) (c : MultisetClient)
  (frame : IFrameCaptureEvent) (intrinsics : ICameraIntrinsicsEvent)
  (data : ILocalizeResponse) (m : string) (ms : list string)
  (body : option IGetMapsDetailsResponse) :
  truthy_string (accessToken c) = true ->
  answerQuery net (queryUrl (endpoints c)) (accessToken c)
    (build_form c frame intrinsics) = HttpOk data ->
  poseFound data = true ->
  mapIds data = Some (m :: ms) ->
  answerGet net (String.append (mapDetailsUrl (endpoints c)) m) (accessToken c)
    = HttpOk body ->
  let run := localizeWithFrame net c frame intrinsics in
  outcome run = Resolved (Some {| localizeData := data; mapDetails := body |})
  /\ List.filter is_error_event (trace run) = [].
Proof.
  intros Htok Hq Hpose Hids Hget. cbn zeta.
  rewrite (localizeWithFrame_with_token _ _ _ _ Htok).
  rewrite (queryLocalization_answered _ _ _ _ _ Hq). cbn zeta.
  rewrite Hpose. unfold first_mapId. rewrite Hids. cbn [negb].
  unfold fetchMapDetails, try_catch, http. rewrite Hget.
  cbn [outcome trace fst snd].
  split.
  - destruct body; reflexivity.
  - rewrite !List.filter_app, !filter_notify by reflexivity.
    destruct body; cbn; rewrite ?Hpose; cbn;
      destruct (onPoseResult (config c)); reflexivity.
Qed.

Lemma localize_attaches_map_details_witness :
  let run := localizeWithFrame demo_net_details demo_client demo_frame demo_intrinsics in
  outcome run
    = Resolved (Some {| localizeData := demo_pose true; mapDetails := Some demo_details |})
  /\ List.filter is_error_event (trace run) = [].
Proof.
  apply (localize_attaches_map_details demo_net_details demo_client demo_frame
           demo_intrinsics (demo_pose true) "m1" [] (Some demo_details));
    reflexivity.
Defined.

(** X8. A found pose without map identifiers ([mapIds] missing or empty)
    is returned as it is: no detail request is made. *)
Theorem localize_without_map_ids (net : Network) (c : MultisetClient)
  (frame : IFrameCaptureEvent) (intrinsics : ICameraIntrinsicsEvent)
  (data : ILocalizeResponse) :
  truthy_string (accessToken c) = true ->
  answerQuery net (queryUrl (endpoints c)) (accessToken c)
    (build_form c frame intrinsics) = HttpOk data ->
  poseFound data = true ->
  mapIds data = None \/ mapIds data = Some [] ->
  let run := localizeWithFrame net c frame intrinsics in
  outcome run = Resolved (Some {| localizeData := data; mapDetails := None |})
  /\ List.filter is_map_detail_fetch (trace run) = [].
Proof.
  intros Htok Hq Hpose Hids. cbn zeta.
  rewrite (localizeWithFrame_with_token _ _ _ _ Htok).
  rewrite (queryLocalization_answered _ _ _ _ _ Hq). cbn zeta.
  rewrite Hpose. cbn [negb].
  assert (Hnone : first_mapId data = None).
  { unfold first_mapId. destruct Hids as [-> | ->]; reflexivity. }
  rewrite Hnone. cbn [outcome trace fst snd]. split; [reflexivity|].
  rewrite !List.filter_app, !filter_notify by reflexivity. cbn. rewrite Hpose.
  destruct (onPoseResult (config c)); reflexivity.
Qed.

Lemma localize_without_map_ids_witness :
  let run := localizeWithFrame demo_net_no_maps demo_client demo_frame demo_intrinsics in
  outcome run
    = Resolved (Some {| localizeData := demo_pose_no_maps; mapDetails := None |})
  /\ List.filter is_map_detail_fetch (trace run) = [].
Proof.
  apply (localize_without_map_ids demo_net_no_maps demo_client demo_frame
           demo_intrinsics demo_pose_no_maps); try reflexivity.
  right. reflexivity.
Defined.

(** X9. With a stored token every call sends exactly one query, to
    [queryUrl], and no retry: its form has [isRightHanded = true], the
    size and image of the frame, the four intrinsics, and the configured
    code under [mapCode] for a map or under [mapSetCode] for a map set,
    never both; and every request of the call carries the stored token. *)
Theorem localize_sends_one_query (net : Network) (c : MultisetClient)
  (frame : IFrameCaptureEvent) (intrinsics : ICameraIntrinsicsEvent) :
  truthy_string (accessToken c) = true ->
  let run := localizeWithFrame net c frame intrinsics in
  exists form,
    List.filter is_query_post (trace run)
      = [HttpPostQuery (queryUrl (endpoints c)) (accessToken c) form]
    /\ f_isRightHanded form = "true"
    /\ (f_width form, f_height form, f_queryImage form)
       = (frame_width frame, frame_height frame, blob frame)
    /\ (f_fx form, f_fy form, f_px form, f_py form)
       = (fx intrinsics, fy intrinsics, px intrinsics, py intrinsics)
    /\ (f_mapCode form, f_mapSetCode form)
       = match mapType (config c) with
         | map_ => (Some (code (config c)), None)
         | map_set => (None, Some (code (config c)))
         end
    /\ forall ev b, In ev (trace run) -> bearer_of ev = Some b -> b = accessToken c.
Proof.
  intros Htok. cbn zeta. exists (build_form c frame intrinsics).
  split; [rewrite localizeWithFrame_posts, Htok; reflexivity|].
  rewrite (localizeWithFrame_with_token _ _ _ _ Htok). cbn [trace fst].
  destruct (queryLocalization_trace net c frame intrinsics) as (rest & Hq & Hrest).
  cbn zeta. rewrite Hq.
  split; [reflexivity|]. split; [reflexivity|]. split; [reflexivity|].
  split; [cbn [build_form f_mapCode f_mapSetCode];
          destruct (mapType (config c)); reflexivity|].
  intros ev b Hin Hb.
  rewrite !in_app_iff in Hin. destruct Hin as [Hin|[Hin|[Hin|Hin]]].
  - destruct (onFrameCaptured (config c)); cbn in Hin; [|tauto].
    destruct Hin as [<-|[]]. discriminate.
  - destruct (onCameraIntrinsics (config c)); cbn in Hin; [|tauto].
    destruct Hin as [<-|[]]. discriminate.
  - destruct Hin as [<-|Hin]; [cbn in Hb; congruence|].
    rewrite Forall_forall in Hrest. apply list_elem_of_In in Hin.
    specialize (Hrest _ Hin). destruct ev; try discriminate; try destruct Hrest.
    cbn in Hb. congruence.
  - destruct (outcome _) as [[r|]|]; try destruct Hin.
    destruct (poseFound (localizeData r)); [|destruct Hin].
    destruct (onPoseResult (config c)); cbn in Hin; [|tauto].
    destruct Hin as [<-|[]]. discriminate.
Qed.

Lemma localize_sends_one_query_witness :
  let run := localizeWithFrame (demo_net true) demo_client demo_frame demo_intrinsics in
  exists form,
    List.filter is_query_post (trace run)
      = [HttpPostQuery (queryUrl (endpoints demo_client)) (accessToken demo_client) form]
    /\ f_isRightHanded form = "true"
    /\ (f_width form, f_height form, f_queryImage form)
       = (frame_width demo_frame, frame_height demo_frame, blob demo_frame)
    /\ (f_fx form, f_fy form, f_px form, f_py form)
       = (fx demo_intrinsics, fy demo_intrinsics, px demo_intrinsics, py demo_intrinsics)
    /\ (f_mapCode form, f_mapSetCode form)
       = match mapType (config demo_client) with
         | map_ => (Some (code (config demo_client)), None)
         | map_set => (None, Some (code (config demo_client)))
         end
    /\ forall ev b, In ev (trace run) -> bearer_of ev = Some b ->
                    b = accessToken demo_client.
Proof.
  apply (localize_sends_one_query (demo_net true) demo_client demo_frame demo_intrinsics).
  reflexivity.
Defined.

(** X10. After an [authorize] that resolved with [t], a localization
    sends its query with bearer [t] and does not fail for want of a
    token. *)
Theorem authorize_then_localize (net net' : Network) (c : MultisetClient) (t : string)
  (frame : IFrameCaptureEvent) (intrinsics : ICameraIntrinsicsEvent) :
  outcome (authorize net c).2 = Resolved t ->
  let c' := (authorize net c).1 in
  let run := localizeWithFrame net' c' frame intrinsics in
  In (HttpPostQuery (queryUrl (endpoints c)) (Some t) (build_form c' frame intrinsics))
     (trace run)
  /\ exists r, outcome run = Resolved r.
Proof.
  intros Hauth. cbn zeta.
  destruct (authorize_resolved_stores_token _ _ _ Hauth) as [Hstored Htruthy].
  assert (Htok : truthy_string (accessToken (authorize net c).1) = true)
    by (rewrite Hstored; exact Htruthy).
  assert (Hend : endpoints (authorize net c).1 = endpoints c).
  { unfold authorize. cbn [fst]. destruct (outcome (authorize_try net c)); reflexivity. }
  split.
  - rewrite (localizeWithFrame_with_token _ _ _ _ Htok). cbn [trace fst].
    destruct (queryLocalization_trace net' (authorize net c).1 frame intrinsics)
      as (rest & Hq & _).
    cbn zeta. rewrite Hq, Hstored, Hend, !in_app_iff. right. right. left. left.
    reflexivity.
  - rewrite (localizeWithFrame_with_token _ _ _ _ Htok). cbn [outcome snd].
    destruct (queryLocalization_outcome net' (authorize net c).1 frame intrinsics)
      as [H|(r & H & _)]; rewrite H; eauto.
Qed.

Lemma authorize_then_localize_witness :
  let c' := (authorize (demo_net true) (new_MultisetClient demo_config)).1 in
  let run := localizeWithFrame demo_net_down c' demo_frame demo_intrinsics in
  In (HttpPostQuery (queryUrl (endpoints (new_MultisetClient demo_config))) (Some "abc")
        (build_form c' demo_frame demo_intrinsics))
     (trace run)
  /\ exists r, outcome run = Resolved r.
Proof.
  apply (authorize_then_localize (demo_net true) demo_net_down
           (new_MultisetClient demo_config) "abc").
  reflexivity.
Defined.

(** X11. Neither detail request can reject: a failed GET is handed to
    the error hook and resolves to [null], an answered one resolves to
    its body; each sends one GET, to the base URL followed by the
    identifier, with the stored token. *)
Theorem detail_fetches_never_reject (net : Network)
  (answerSet : string -> option string -> HttpResult (option IMapSetMapsResponse))
  (c : MultisetClient) (id : string) :
  let mapUrl := String.append (mapDetailsUrl (endpoints c)) id in
  let setUrl := String.append (mapSetDetailsUrl (endpoints c)) id in
  fetchMapDetails net c id =
    match answerGet net mapUrl (accessToken c) with
    | HttpOk body => ([HttpGet mapUrl (accessToken c)], Resolved body)
    | HttpFail e =>
        (HttpGet mapUrl (accessToken c) :: trace (notify (onError (config c)) (EvError e)),
         Resolved None)
    end
  /\ fetchMapSetDetails answerSet c id =
     match answerSet setUrl (accessToken c) with
     | HttpOk body => ([HttpGet setUrl (accessToken c)], Resolved body)
     | HttpFail e =>
         (HttpGet setUrl (accessToken c) :: trace (notify (onError (config c)) (EvError e)),
          Resolved None)
     end.
Proof.
  cbn zeta. unfold fetchMapDetails, fetchMapSetDetails, try_catch, http, handleError.
  split.
  - destruct (answerGet net _ _) as [body|e]; [reflexivity|].
    destruct e, (onError (config c)); reflexivity.
  - destruct (answerSet _ _) as [body|e]; [reflexivity|].
    destruct e, (onError (config c)); reflexivity.
Qed.

(** ** The controller: [initialize] *)

(** [initialize] on a controller without renderer in a secure page, in
    full: identities [k], [1 + k], ... are taken from the counter (after
    one for the canvas, when none was configured). *)
Lemma initialize_uninitialized_record arg c n body rens rl pe :
  renderer c = None ->
  let k := match canvas (options c) with Some _ => n | None => S n end in
  let canvas_ := default n (canvas (options c)) in
  let parent := resolve_buttonParent arg (buttonContainer (options c))
                  (default body (overlayRoot (options c))) in
  initialize arg
    {| ctl := c;
       world := {| isSecureContext := true; nextId := n; document_body := body;
                   renderers := rens; resizeListeners := rl; parentElement := pe |} |} =
  ({| ctl := {| options := options c; renderer := Some k; camera := Some (3 + k);
                scene := Some (4 + k); animationLoop := Some (5 + k);
                arButton := Some (7 + k); resizeHandler := Some (6 + k);
                isSessionActive := isSessionActive c |};
      world := {| isSecureContext := true; nextId := 8 + k; document_body := body;
                  renderers :=
                    <[k := initialized_renderer canvas_ (1 + k) (2 + k) (5 + k)]> rens;
                  resizeListeners :=
                    if decide (6 + k ∈ rl) then rl else rl ++ [6 + k];
                  parentElement :=
                    if negb (contains_upto (size pe) pe parent (7 + k))
                    then <[7 + k := parent]> pe else pe |} |},
   (trace (notify (onARButtonCreated (options c)) (EvARButtonCreated (7 + k))),
    Resolved (Some (7 + k)))).
Proof.
  intros Hr. cbn zeta. unfold initialize. cbn [ctl world]. rewrite Hr.
  cbn [isSecureContext negb].
  destruct (canvas (options c)) as [cv|];
    cbv beta iota zeta delta [alloc set_renderers addResizeListener set_resizeListeners
      set_parentElement contains nextId isSecureContext document_body renderers
      resizeListeners parentElement fst snd default Nat.add];
    destruct (negb (contains_upto _ _ _ _));
    destruct (onARButtonCreated (options c)); reflexivity.
Qed.

(** The same for any state. *)
Lemma initialize_uninitialized arg s :
  renderer (ctl s) = None -> isSecureContext (world s) = true ->
  let c := ctl s in
  let w := world s in
  let k := match canvas (options c) with Some _ => nextId w | None => S (nextId w) end in
  let canvas_ := default (nextId w) (canvas (options c)) in
  let parent := resolve_buttonParent arg (buttonContainer (options c))
                  (default (document_body w) (overlayRoot (options c))) in
  initialize arg s =
  ({| ctl := {| options := options c; renderer := Some k; camera := Some (3 + k);
                scene := Some (4 + k); animationLoop := Some (5 + k);
                arButton := Some (7 + k); resizeHandler := Some (6 + k);
                isSessionActive := isSessionActive c |};
      world := {| isSecureContext := true; nextId := 8 + k;
                  document_body := document_body w;
                  renderers :=
                    <[k := initialized_renderer canvas_ (1 + k) (2 + k) (5 + k)]>
                      (renderers w);
                  resizeListeners :=
                    if decide (6 + k ∈ resizeListeners w) then resizeListeners w
                    else resizeListeners w ++ [6 + k];
                  parentElement :=
                    if negb (contains_upto (size (parentElement w)) (parentElement w)
                               parent (7 + k))
                    then <[7 + k := parent]> (parentElement w)
                    else parentElement w |} |},
   (trace (notify (onARButtonCreated (options c)) (EvARButtonCreated (7 + k))),
    Resolved (Some (7 + k)))).
Proof.
  destruct s as [c [sec n body rens rl pe]]. cbn [ctl world isSecureContext].
  intros Hr ->. apply (initialize_uninitialized_record arg c n body rens rl pe Hr).
Qed.

Lemma contains_upto_fresh fuel (dom : gmap ObjId ObjId) parent node :
  parent <> node -> dom !! node = None -> contains_upto fuel dom parent node = false.
Proof.
  intros Hne Hnone. destruct fuel; cbn; rewrite decide_False by exact Hne;
    [reflexivity|]. rewrite Hnone. reflexivity.
Qed.

Lemma demo_start_heap_fresh arg :
  (forall e, arg = Some e -> e < 10) -> heap_fresh arg demo_start.
Proof.
  intros Harg. unfold heap_fresh, demo_start, demo_world, demo_options,
    new_WebxrController. cbn.
  split; [intros id _; split; [apply lookup_empty | apply not_elem_of_nil]|].
  split; [cbn; lia|]. split; [exact Harg|].
  split; [intros e [= <-]; lia | intros e [=]].
Qed.

Lemma initialize_insecure arg s :
  isSecureContext (world s) = false -> (initialize arg s).1 = s.
Proof.
  intros Hsec. unfold initialize. rewrite Hsec.
  destruct (renderer (ctl s)); reflexivity.
Qed.

(** X12. [initialize] looks at the renderer before it looks at the page:
    in an insecure context a controller without renderer rejects with the
    secure-context error, and an initialized one still hands back its
    button; in both cases nothing is allocated, registered or notified. *)
Theorem initialize_in_insecure_context (arg : option ObjId) (s : State) :
  isSecureContext (world s) = false ->
  initialize arg s =
  (s, ([], match renderer (ctl s) with
           | Some _ => Resolved (arButton (ctl s))
           | None => Rejected SecureContextError
           end)).
Proof.
  intros Hsec. unfold initialize. rewrite Hsec.
  destruct (renderer (ctl s)); reflexivity.
Qed.

Lemma initialize_in_insecure_context_witness :
  initialize None demo_insecure = (demo_insecure, ([], Rejected SecureContextError)).
Proof. apply (initialize_in_insecure_context None demo_insecure). reflexivity. Defined.

(** X13. The first [initialize] in a secure page, on a heap whose unused
    identities are unused: it resolves and holds six new, pairwise
    different objects (renderer, camera, scene, render loop, resize
    handler, button); the new renderer has XR enabled, runs that render
    loop, and has exactly one [sessionstart] and one [sessionend]
    listener; [window] gets exactly one more [resize] listener, the
    handler; no other renderer is touched. *)
Theorem initialize_wires_environment (arg : option ObjId) (s : State) :
  renderer (ctl s) = None -> isSecureContext (world s) = true -> heap_fresh arg s ->
  let s' := (initialize arg s).1 in
  exists r cam sc loop h b rr,
    (renderer (ctl s'), camera (ctl s'), scene (ctl s'), animationLoop (ctl s'),
     resizeHandler (ctl s'), arButton (ctl s'))
      = (Some r, Some cam, Some sc, Some loop, Some h, Some b)
    /\ NoDup [r; cam; sc; loop; h; b]
    /\ Forall (λ id, nextId (world s) <= id < nextId (world s')) [r; cam; sc; loop; h; b]
    /\ renderers (world s') = <[r := rr]> (renderers (world s))
    /\ (xr_listeners rr).*1 = [sessionstart; sessionend]
    /\ (xr_enabled rr, r_animationLoop rr, r_disposed rr) = (true, Some loop, false)
    /\ resizeListeners (world s') = resizeListeners (world s) ++ [h]
    /\ outcome (initialize arg s).2 = Resolved (Some b).
Proof.
  intros Hr Hsec (Hfresh & _). cbn zeta.
  rewrite (initialize_uninitialized arg s Hr Hsec). cbn zeta.
  set (k := match canvas (options (ctl s)) with
            | Some _ => nextId (world s)
            | None => S (nextId (world s))
            end).
  assert (Hk : nextId (world s) <= k) by (subst k; destruct (canvas _); lia).
  cbn [fst snd ctl world renderer camera scene animationLoop resizeHandler arButton
       renderers resizeListeners nextId outcome].
  eexists k, (3 + k), (4 + k), (5 + k), (6 + k), (7 + k), _.
  split; [reflexivity|]. split.
  { repeat (constructor; [rewrite ?elem_of_cons, elem_of_nil; lia|]). constructor. }
  split; [repeat (constructor; [lia|]); constructor|].
  split; [reflexivity|]. split; [reflexivity|]. split; [reflexivity|].
  split; [|reflexivity].
  destruct (Hfresh (6 + k)) as [_ Hnot]; [lia|].
  rewrite decide_False by exact Hnot. reflexivity.
Qed.

Lemma initialize_wires_environment_witness :
  exists r cam sc loop h b rr,
    (renderer (ctl demo_ready), camera (ctl demo_ready), scene (ctl demo_ready),
     animationLoop (ctl demo_ready), resizeHandler (ctl demo_ready),
     arButton (ctl demo_ready))
      = (Some r, Some cam, Some sc, Some loop, Some h, Some b)
    /\ NoDup [r; cam; sc; loop; h; b]
    /\ Forall (λ id, nextId (world demo_start) <= id < nextId (world demo_ready))
         [r; cam; sc; loop; h; b]
    /\ renderers (world demo_ready) = <[r := rr]> (renderers (world demo_start))
    /\ (xr_listeners rr).*1 = [sessionstart; sessionend]
    /\ (xr_enabled rr, r_animationLoop rr, r_disposed rr) = (true, Some loop, false)
    /\ resizeListeners (world demo_ready) = resizeListeners (world demo_start) ++ [h]
    /\ outcome (initialize None demo_start).2 = Resolved (Some b).
Proof.
  apply (initialize_wires_environment None demo_start); [reflexivity | reflexivity |].
  apply demo_start_heap_fresh. discriminate.
Defined.

(** X14. Where the button goes: into the container given to the call,
    else the one of the options, else the overlay root of the options,
    else the document body; it was not in the document before, and the
    button hook (when there is one) is told about it, once. *)
Theorem initialize_attaches_button (arg : option ObjId) (s : State) :
  renderer (ctl s) = None -> isSecureContext (world s) = true -> heap_fresh arg s ->
  let o := options (ctl s) in
  let target :=
    match arg, buttonContainer o, overlayRoot o with
    | Some e, _, _ => e
    | None, Some e, _ => e
    | None, None, Some e => e
    | None, None, None => document_body (world s)
    end in
  exists b,
    initialize arg s
      = ((initialize arg s).1,
         (trace (notify (onARButtonCreated o) (EvARButtonCreated b)), Resolved (Some b)))
    /\ parentElement (world s) !! b = None
    /\ parentElement (world (initialize arg s).1)
       = <[b := target]> (parentElement (world s)).
Proof.
  intros Hr Hsec (Hfresh & Hbody & Harg & Hcont & Hover). cbn zeta.
  rewrite (initialize_uninitialized arg s Hr Hsec). cbn zeta.
  set (k := match canvas (options (ctl s)) with
            | Some _ => nextId (world s)
            | None => S (nextId (world s))
            end).
  assert (Hk : nextId (world s) <= k) by (subst k; destruct (canvas _); lia).
  set (parent := resolve_buttonParent arg _ _).
  assert (Hparent : parent < nextId (world s)).
  { subst parent. unfold resolve_buttonParent.
    destruct arg as [e|]; [auto|].
    destruct (buttonContainer (options (ctl s))) as [e|]; [auto|].
    destruct (overlayRoot (options (ctl s))) as [e|]; cbn; auto. }
  assert (Htarget : parent =
            match arg, buttonContainer (options (ctl s)), overlayRoot (options (ctl s)) with
            | Some e, _, _ => e
            | None, Some e, _ => e
            | None, None, Some e => e
            | None, None, None => document_body (world s)
            end).
  { subst parent. unfold resolve_buttonParent.
    destruct arg, (buttonContainer (options (ctl s))),
      (overlayRoot (options (ctl s))); reflexivity. }
  destruct (Hfresh (7 + k)) as [Hnone _]; [lia|].
  exists (7 + k). cbn [fst snd world parentElement].
  rewrite contains_upto_fresh by (try exact Hnone; lia). cbn [negb].
  rewrite <- Htarget. split; [reflexivity|]. split; [exact Hnone | reflexivity].
Qed.

Lemma initialize_attaches_button_witness :
  exists b,
    initialize (Some 3) demo_start
      = ((initialize (Some 3) demo_start).1,
         (trace (notify (onARButtonCreated (options (ctl demo_start)))
                   (EvARButtonCreated b)), Resolved (Some b)))
    /\ parentElement (world demo_start) !! b = None
    /\ parentElement (world (initialize (Some 3) demo_start).1)
       = <[b := 3]> (parentElement (world demo_start)).
Proof.
  apply (initialize_attaches_button (Some 3) demo_start); [reflexivity | reflexivity |].
  apply demo_start_heap_fresh. intros e [= <-]. lia.
Defined.

(** ** The controller: session events and the reachable states *)

Lemma sessionListener_again ty c :
  (sessionListener ty (sessionListener ty c).1).1 = (sessionListener ty c).1
  /\ (sessionListener ty (sessionListener ty c).1).2 = (sessionListener ty c).2.
Proof. destruct ty; split; reflexivity. Qed.

(** Running the listeners registered for [ty], one after the other. *)
Lemma run_listeners ty (ls : list (XrEventType * ObjId)) c evs :
  foldl (λ acc _, let '(c', e) := sessionListener ty acc.1 in (c', acc.2 ++ e))
        (c, evs) ls
  = (match ls with [] => c | _ :: _ => (sessionListener ty c).1 end,
     evs ++ concat (List.map (λ _, (sessionListener ty c).2) ls)).
Proof.
  revert c evs. induction ls as [|l ls IH]; intros c evs.
  - cbn. rewrite app_nil_r. reflexivity.
  - cbn [foldl fst snd List.map concat].
    replace (let '(c', e) := sessionListener ty c in (c', evs ++ e))
      with ((sessionListener ty c).1, evs ++ (sessionListener ty c).2)
      by (destruct (sessionListener ty c); reflexivity).
    rewrite IH. destruct (sessionListener_again ty c) as [H1 H2].
    rewrite H1, H2, <- app_assoc. destruct ls; reflexivity.
Qed.

Lemma dispatchEvent_unfold r ty s :
  dispatchEvent r ty s =
  let ls := filter (λ l, l.1 = ty) (xr_listeners (renderers (world s) !!! r)) in
  ({| ctl := match ls with [] => ctl s | _ :: _ => (sessionListener ty (ctl s)).1 end;
      world := world s |},
   concat (List.map (λ _, (sessionListener ty (ctl s)).2) ls)).
Proof. unfold dispatchEvent. cbn zeta. rewrite run_listeners. reflexivity. Qed.

(** A session event changes at most the session flag. *)
Lemma dispatchEvent_ctl r ty s :
  let c := ctl s in
  let c' := ctl (dispatchEvent r ty s).1 in
  world (dispatchEvent r ty s).1 = world s
  /\ (options c', renderer c', camera c', scene c', animationLoop c', arButton c',
      resizeHandler c')
     = (options c, renderer c, camera c, scene c, animationLoop c, arButton c,
        resizeHandler c).
Proof.
  cbn zeta. rewrite dispatchEvent_unfold. cbn zeta. cbn [fst ctl world].
  split; [reflexivity|].
  destruct (filter _ _); [reflexivity|]. destruct ty; reflexivity.
Qed.

Lemma lifecycle_invariant_new o w0 :
  lifecycle_invariant o {| ctl := new_WebxrController o; world := w0 |}.
Proof. unfold lifecycle_invariant. cbn. tauto. Qed.

Lemma lifecycle_invariant_initialize o arg s :
  lifecycle_invariant o s -> lifecycle_invariant o (initialize arg s).1.
Proof.
  intros Hinv. destruct (renderer (ctl s)) as [r|] eqn:Hr.
  { rewrite (initialize_when_initialized arg s r Hr). exact Hinv. }
  destruct (isSecureContext (world s)) eqn:Hsec.
  2:{ rewrite (initialize_insecure arg s Hsec). exact Hinv. }
  rewrite (initialize_uninitialized arg s Hr Hsec). cbn zeta.
  destruct Hinv as [Ho _]. unfold lifecycle_invariant.
  cbn [fst ctl world options renderer camera scene animationLoop arButton
       resizeHandler nextId renderers].
  rewrite lookup_total_insert_eq.
  split; [exact Ho|].
  do 5 (split; [eexists; reflexivity|]).
  split; [lia|]. split; [do 2 eexists; reflexivity|]. split; reflexivity.
Qed.

Lemma lifecycle_invariant_dispose o s :
  lifecycle_invariant o s -> lifecycle_invariant o (dispose s).
Proof.
  intros [Ho _]. unfold lifecycle_invariant.
  cbn [dispose ctl options renderer camera scene animationLoop arButton]. tauto.
Qed.

Lemma lifecycle_invariant_event o r ty s :
  lifecycle_invariant o s -> lifecycle_invariant o (dispatchEvent r ty s).1.
Proof.
  unfold lifecycle_invariant. cbn zeta.
  destruct (dispatchEvent_ctl r ty s) as [Hw Hc]. cbn zeta in Hc.
  injection Hc as -> -> -> -> -> -> ->. rewrite Hw. tauto.
Qed.

Lemma lifecycle_invariant_runtime o r session rs presenting s :
  lifecycle_invariant o s ->
  lifecycle_invariant o (runtime_update r session rs presenting s).
Proof.
  unfold lifecycle_invariant, runtime_update. cbn zeta.
  cbn [ctl world nextId renderers set_renderers].
  intros [Ho Hh]. split; [exact Ho|].
  destruct (renderer (ctl s)) as [r0|]; [|exact Hh].
  destruct Hh as (H1 & H2 & H3 & H4 & H5 & H6 & H7 & H8 & H9).
  repeat (split; [assumption|]).
  destruct (decide (r = r0)) as [->|Hne].
  - rewrite lookup_total_insert_eq. cbn. tauto.
  - rewrite lookup_total_insert_ne by exact Hne. tauto.
Qed.

Lemma reachable_invariant o w0 s : Reachable o w0 s -> lifecycle_invariant o s.
Proof.
  induction 1.
  - apply lifecycle_invariant_new.
  - apply lifecycle_invariant_initialize; assumption.
  - apply lifecycle_invariant_dispose; assumption.
  - apply lifecycle_invariant_event; assumption.
  - apply lifecycle_invariant_runtime; assumption.
Qed.

Lemma demo_ready_reachable : Reachable demo_options demo_world demo_ready.
Proof. exact (reach_initialize _ _ None _ (reach_new _ _)). Qed.

(** X15. In every reachable state the three accessors agree with each
    other and with [captureFrame]: either all three return their handle
    and [captureFrame] gets past its not-initialized check, or each
    throws its own not-initialized error and so does [captureFrame]. *)
Theorem accessors_agree (o : IWebxrControllerOptions) (w0 : World) (s : State) :
  Reachable o w0 s ->
  (exists r cam sc,
     getRenderer (ctl s) = Resolved r /\ getCamera (ctl s) = Resolved cam
     /\ getScene (ctl s) = Resolved sc
     /\ captureFrame_checks s <> Rejected NotInitializedError)
  \/ (getRenderer (ctl s) = Rejected RendererNotInitialized
      /\ getCamera (ctl s) = Rejected CameraNotInitialized
      /\ getScene (ctl s) = Rejected SceneNotInitialized
      /\ captureFrame_checks s = Rejected NotInitializedError).
Proof.
  intros Hreach. destruct (reachable_invariant _ _ _ Hreach) as [_ Hh].
  unfold getRenderer, getCamera, getScene, captureFrame_checks.
  destruct (renderer (ctl s)) as [r|].
  - destruct Hh as ([cam Hcam] & [sc Hsc] & _). rewrite Hcam, Hsc. left.
    exists r, cam, sc. repeat (split; [reflexivity|]).
    destruct (xr_session _); [destruct (xr_referenceSpace _)|]; discriminate.
  - destruct Hh as (-> & -> & _). right. tauto.
Qed.

Lemma accessors_agree_witness :
  (exists r cam sc,
     getRenderer (ctl demo_ready) = Resolved r /\ getCamera (ctl demo_ready) = Resolved cam
     /\ getScene (ctl demo_ready) = Resolved sc
     /\ captureFrame_checks demo_ready <> Rejected NotInitializedError)
  \/ (getRenderer (ctl demo_ready) = Rejected RendererNotInitialized
      /\ getCamera (ctl demo_ready) = Rejected CameraNotInitialized
      /\ getScene (ctl demo_ready) = Rejected SceneNotInitialized
      /\ captureFrame_checks demo_ready = Rejected NotInitializedError).
Proof. exact (accessors_agree demo_options demo_world demo_ready demo_ready_reachable). Defined.

(** X16. In every reachable state, a session event dispatched on the
    renderer that the controller holds reaches the controller exactly
    once: [sessionstart] sets the session flag and calls the start hook
    once, [sessionend] clears the flag and calls the end hook once;
    nothing else changes. After a [sessionend], [hasActiveSession] is
    false even while the runtime still reports presenting. *)
Theorem session_event_reaches_controller_once (o : IWebxrControllerOptions)
  (w0 : World) (s : State) (r : ObjId) (ty : XrEventType) :
  Reachable o w0 s -> renderer (ctl s) = Some r ->
  let s' := (dispatchEvent r ty s).1 in
  isSessionActive (ctl s') = (if ty is sessionstart then true else false)
  /\ (dispatchEvent r ty s).2 =
     match ty with
     | sessionstart => if onSessionStart o then [EvSessionStart] else []
     | sessionend => if onSessionEnd o then [EvSessionEnd] else []
     end
  /\ world s' = world s
  /\ (ty = sessionend -> hasActiveSession s' = false).
Proof.
  intros Hreach Hr. destruct (reachable_invariant _ _ _ Hreach) as [Ho Hh].
  rewrite Hr in Hh. destruct Hh as (_ & _ & _ & _ & _ & _ & (a & b & Hls) & _).
  cbn zeta. rewrite dispatchEvent_unfold. cbn zeta. rewrite Hls, <- Ho.
  unfold hasActiveSession.
  destruct ty; cbn; repeat (case_decide; try congruence); cbn;
    rewrite ?app_nil_r; repeat split; try reflexivity; discriminate.
Qed.

Lemma session_event_reaches_controller_once_witness :
  let s' := (dispatchEvent 10 sessionstart demo_ready).1 in
  isSessionActive (ctl s') = true
  /\ (dispatchEvent 10 sessionstart demo_ready).2 =
     (if onSessionStart demo_options then [EvSessionStart] else [])
  /\ world s' = world demo_ready
  /\ (sessionstart = sessionend -> hasActiveSession s' = false).
Proof.
  apply (session_event_reaches_controller_once demo_options demo_world demo_ready 10
           sessionstart demo_ready_reachable).
  reflexivity.
Defined.

Lemma reachable_resize_listeners (o : IWebxrControllerOptions) (w0 : World)
  (s : State) :
  Reachable o w0 s -> resizeListeners w0 = [] ->
  resizeListeners (world s) = own_resize_listeners (ctl s).
Proof.
  intros Hreach Hw0. induction Hreach as [|arg s Hreach IH|s Hreach IH
    |r ty s Hreach IH|r session rs presenting s Hreach IH].
  - exact Hw0.
  - destruct (renderer (ctl s)) as [r|] eqn:Hr.
    { rewrite (initialize_when_initialized arg s r Hr). exact IH. }
    destruct (isSecureContext (world s)) eqn:Hsec.
    2:{ rewrite (initialize_insecure arg s Hsec). exact IH. }
    rewrite (initialize_uninitialized arg s Hr Hsec). cbn zeta.
    unfold own_resize_listeners in *. rewrite Hr in IH.
    cbn [fst ctl world renderer resizeHandler resizeListeners]. rewrite IH.
    rewrite decide_False by apply not_elem_of_nil. reflexivity.
  - rewrite resizeListeners_after_dispose, IH. unfold own_resize_listeners.
    cbn [dispose ctl renderer].
    destruct (renderer (ctl s)), (resizeHandler (ctl s)) as [h|]; try reflexivity.
    rewrite filter_cons, decide_False by (intros Hne; apply Hne; reflexivity).
    reflexivity.
  - destruct (dispatchEvent_ctl r ty s) as [Hw Hc]. cbn zeta in Hc.
    unfold own_resize_listeners in *.
    injection Hc as _ -> _ _ _ _ ->. rewrite Hw. exact IH.
  - exact IH.
Qed.

(** X17. In a page that starts without [resize] listeners, whatever
    sequence of [initialize], [dispose] and session events has run, the
    controller has at most one [resize] listener on [window]: its
    current handler while it holds a renderer, none otherwise. *)
Theorem at_most_one_resize_listener (o : IWebxrControllerOptions) (w0 : World)
  (s : State) :
  Reachable o w0 s -> resizeListeners w0 = [] ->
  resizeListeners (world s) = own_resize_listeners (ctl s)
  /\ length (resizeListeners (world s)) <= 1.
Proof.
  intros Hreach Hw0. pose proof (reachable_resize_listeners o w0 s Hreach Hw0) as H.
  split; [exact H|]. rewrite H. unfold own_resize_listeners.
  destruct (renderer (ctl s)), (resizeHandler (ctl s)); cbn; lia.
Qed.

Lemma at_most_one_resize_listener_witness :
  resizeListeners (world (initialize None (dispose demo_ready)).1)
  = own_resize_listeners (ctl (initialize None (dispose demo_ready)).1)
  /\ length (resizeListeners (world (initialize None (dispose demo_ready)).1)) <= 1.
Proof.
  apply (at_most_one_resize_listener demo_options demo_world).
  - exact (reach_initialize _ _ None _ (reach_dispose _ _ _ demo_ready_reachable)).
  - reflexivity.
Defined.

(** X18. [initialize] after [dispose] starts over: in a secure page it
    builds a new renderer, different from the disposed one, which stays
    disposed; the new one is not disposed and has the controller's new
    render-loop callback registered. *)
Theorem initialize_after_dispose_builds_new_renderer (o : IWebxrControllerOptions)
  (w0 : World) (arg : option ObjId) (s : State) (r : ObjId) :
  Reachable o w0 s -> renderer (ctl s) = Some r ->
  isSecureContext (world s) = true ->
  let s' := (initialize arg (dispose s)).1 in
  exists r',
    renderer (ctl s') = Some r' /\ r' <> r
    /\ r_disposed (renderers (world s') !!! r) = true
    /\ r_disposed (renderers (world s') !!! r') = false
    /\ r_animationLoop (renderers (world s') !!! r') = animationLoop (ctl s')
    /\ is_Some (animationLoop (ctl s')).
Proof.
  intros Hreach Hr Hsec. cbn zeta.
  destruct (reachable_invariant _ _ _ Hreach) as [_ Hh]. rewrite Hr in Hh.
  destruct Hh as (_ & _ & _ & _ & _ & Hlt & _).
  destruct (dispose_releases_renderer s r Hr) as [Hd Hl].
  assert (Hnext : nextId (world (dispose s)) = nextId (world s)).
  { rewrite world_after_dispose. cbn zeta.
    destruct (arButton (ctl s)) as [b|]; [unfold detach; destruct (_ !! b)|];
      destruct (resizeHandler (ctl s)); rewrite Hr; reflexivity. }
  assert (Hsec' : isSecureContext (world (dispose s)) = true).
  { rewrite world_after_dispose. cbn zeta.
    destruct (arButton (ctl s)) as [b|]; [unfold detach; destruct (_ !! b)|];
      destruct (resizeHandler (ctl s)); rewrite Hr; exact Hsec. }
  rewrite (initialize_uninitialized arg (dispose s) eq_refl Hsec'). cbn zeta.
  rewrite Hnext.
  set (k := match canvas (options (ctl (dispose s))) with
            | Some _ => nextId (world s)
            | None => S (nextId (world s))
            end).
  assert (Hk : nextId (world s) <= k) by (subst k; destruct (canvas _); lia).
  exists k. cbn [fst ctl world renderer renderers animationLoop].
  split; [reflexivity|]. split; [lia|].
  rewrite lookup_total_insert_ne by lia. rewrite lookup_total_insert_eq.
  repeat split; eauto.
Qed.

Lemma initialize_after_dispose_builds_new_renderer_witness :
  let s' := (initialize None (dispose demo_ready)).1 in
  exists r',
    renderer (ctl s') = Some r' /\ r' <> 10
    /\ r_disposed (renderers (world s') !!! 10) = true
    /\ r_disposed (renderers (world s') !!! r') = false
    /\ r_animationLoop (renderers (world s') !!! r') = animationLoop (ctl s')
    /\ is_Some (animationLoop (ctl s')).
Proof.
  apply (initialize_after_dispose_builds_new_renderer demo_options demo_world None
           demo_ready 10 demo_ready_reachable); reflexivity.
Defined.

(** ** The capture: the read-back *)

(** The read-back in full. The flip in it never throws: the pixel buffer has the
    size that the flip needs. *)
Lemma getCameraTextureAsImage_cases gl tex w h :
  exists flipped,
    flipVertical w h (List.map (texel gl tex) (seq 0 (w * h * 4))) = Some flipped
    /\ getCameraTextureAsImage gl tex w h =
       if negb (hasContext gl) then ([], Resolved None)
       else if negb (createFramebuffer gl) then ([CreateFramebuffer], Resolved None)
       else ([CreateFramebuffer; ReadPixels w h; DeleteFramebuffer],
             Resolved
               (let data := compressToJpeg gl flipped w h (7 # 10) in
                if decide (length data = 0) then None
                else Some {| blob := data; frame_width := w; frame_height := h |})).
Proof.
  destruct (flipVertical_total w h (List.map (texel gl tex) (seq 0 (w * h * 4))))
    as [flipped Hf].
  { rewrite length_map, length_seq. reflexivity. }
  exists flipped. split; [exact Hf|].
  unfold getCameraTextureAsImage. rewrite Hf.
  destruct (hasContext gl), (createFramebuffer gl); cbn [negb]; try reflexivity.
  cbn zeta. destruct (decide _); reflexivity.
Qed.

Lemma getCameraTextureAsImage_settles gl tex w h :
  exists t fd,
    getCameraTextureAsImage gl tex w h = (t, Resolved fd)
    /\ Forall (λ ev, is_readback_event ev = true) t.
Proof.
  destruct (getCameraTextureAsImage_cases gl tex w h) as (flipped & _ & ->).
  destruct (hasContext gl), (createFramebuffer gl); cbn [negb];
    do 2 eexists; (split; [reflexivity|]); repeat constructor.
Qed.

(** X19. The read-back of an image of nonzero width and height, case
    by case: without context it returns null and touches nothing; when
    no framebuffer can be created it returns null after that one call;
    otherwise it creates one framebuffer, reads [width * height * 4]
    bytes and deletes the framebuffer, and returns the JPEG of the
    vertically flipped bytes at quality 0.7 with the requested size, or
    null when the encoder gave no bytes. For such an image it does not
    throw. *)
Theorem readback_encodes_flipped_pixels (gl : GlEnv) (tex : ObjId) (w h : nat) :
  w <> 0 -> h <> 0 ->
  exists flipped,
    flipVertical w h (List.map (texel gl tex) (seq 0 (w * h * 4))) = Some flipped
    /\ length flipped = w * h * 4
    /\ getCameraTextureAsImage gl tex w h =
       if negb (hasContext gl) then ([], Resolved None)
       else if negb (createFramebuffer gl) then ([CreateFramebuffer], Resolved None)
       else ([CreateFramebuffer; ReadPixels w h; DeleteFramebuffer],
             Resolved
               (match toBlob gl flipped w h (7 # 10) with
                | Some (b :: data) =>
                    Some {| blob := b :: data; frame_width := w; frame_height := h |}
                | _ => None
                end)).
Proof.
  intros _ _.
  destruct (getCameraTextureAsImage_cases gl tex w h) as (flipped & Hf & ->).
  exists flipped. split; [exact Hf|]. split.
  - destruct (rows_of_buffer (w * 4) h (List.map (texel gl tex) (seq 0 (w * h * 4))))
      as (rows & Hrows & Hlen & Hu).
    { rewrite length_map, length_seq. lia. }
    rewrite Hrows, <- Hlen, (flipVertical_rows w rows Hu) in Hf.
    injection Hf as <-.
    rewrite (uniform_rows_concat_length (w * 4)) by (apply uniform_rows_rev, Hu).
    rewrite length_rev. lia.
  - unfold compressToJpeg. cbn zeta.
    destruct (toBlob gl flipped w h (7 # 10)) as [[|b data]|]; reflexivity.
Qed.

Lemma readback_encodes_flipped_pixels_witness :
  exists flipped,
    flipVertical 2 1 (List.map (texel demo_gl 77) (seq 0 (2 * 1 * 4))) = Some flipped
    /\ length flipped = 2 * 1 * 4
    /\ getCameraTextureAsImage demo_gl 77 2 1 =
       if negb (hasContext demo_gl) then ([], Resolved None)
       else if negb (createFramebuffer demo_gl) then ([CreateFramebuffer], Resolved None)
       else ([CreateFramebuffer; ReadPixels 2 1; DeleteFramebuffer],
             Resolved
               (match toBlob demo_gl flipped 2 1 (7 # 10) with
                | Some (b :: data) =>
                    Some {| blob := b :: data; frame_width := 2; frame_height := 1 |}
                | _ => None
                end)).
Proof. apply (readback_encodes_flipped_pixels demo_gl 77 2 1); lia. Defined.

(** ** The capture: the view loop *)

Lemma bind_settled {A B : Type} (t : list Event) (a : A) (k : A -> Eff B) :
  bind (t, Resolved a) k = (t ++ trace (k a), outcome (k a)).
Proof. cbn. destruct (k a); reflexivity. Qed.

(** To show a property of the view loop, show it of the empty loop and
    of one read-back followed by the hand-off or by the rest. *)
Lemma captureViews_induction (P : Eff (option ILocalizeAndMapDetails) -> Prop)
  net client gl :
  P (ret None) ->
  (forall tex w h P' rest,
     P rest ->
     P (bind (getCameraTextureAsImage gl tex w h)
          (fun fd => match fd with
                     | Some frame =>
                         localizeWithFrame net client frame
                           (getCameraIntrinsics P' (capture_viewport w h))
                     | None => rest
                     end))) ->
  forall views, P (captureViews net client gl views).
Proof.
  intros Hnil Hstep views. induction views as [|view rest IH]; [exact Hnil|].
  cbn [captureViews].
  destruct (view_camera view) as [cam|]; [|exact IH].
  destruct (cam_image cam) as [tex|]; [|exact IH].
  destruct ((cam_width cam =? 0)%nat || (cam_height cam =? 0)%nat); [exact IH|].
  apply Hstep, IH.
Qed.

Lemma captureViews_events net client gl views :
  Forall (λ ev, is_frame_event ev = false) (trace (captureViews net client gl views)).
Proof.
  apply captureViews_induction; [constructor|].
  intros tex w h P' rest IH.
  destruct (getCameraTextureAsImage_settles gl tex w h) as (t & fd & -> & Ht).
  rewrite bind_settled. cbn [trace fst]. rewrite Forall_app. split.
  - eapply Forall_impl; [exact Ht|]. intros [] H; try discriminate; reflexivity.
  - destruct fd as [frame|]; [|exact IH].
    eapply Forall_impl; [apply localizeWithFrame_client_events|].
    intros [] H; try discriminate; reflexivity.
Qed.

Lemma filter_readback (P : Event -> bool) (t : list Event) :
  Forall (λ ev, is_readback_event ev = true) t ->
  (forall ev, is_readback_event ev = true -> P ev = false) ->
  List.filter P t = [].
Proof.
  intros Ht HP. induction Ht as [|ev t Hev _ IH]; [reflexivity|].
  cbn. rewrite (HP ev Hev). exact IH.
Qed.

Lemma captureViews_requests net client gl views :
  length (List.filter is_query_post (trace (captureViews net client gl views))) <= 1
  /\ length (List.filter is_map_detail_fetch
               (trace (captureViews net client gl views))) <= 1.
Proof.
  apply captureViews_induction; [cbn; lia|].
  intros tex w h P' rest IH.
  destruct (getCameraTextureAsImage_settles gl tex w h) as (t & fd & -> & Ht).
  rewrite bind_settled. cbn [trace fst]. rewrite !List.filter_app.
  rewrite !(filter_readback _ t Ht) by (intros []; (discriminate || reflexivity)).
  cbn [app]. destruct fd as [frame|]; [|exact IH]. split.
  - rewrite localizeWithFrame_posts. destruct (truthy_string _); cbn; lia.
  - apply localizeWithFrame_gets.
Qed.

Lemma captureViews_unusable net client gl views :
  forallb (λ v, negb (view_usable v)) views = true ->
  captureViews net client gl views = ([], Resolved None).
Proof.
  induction views as [|view rest IH]; [reflexivity|].
  cbn [forallb captureViews]. unfold view_usable at 1.
  intros [Hv Hrest]%andb_prop.
  destruct (view_camera view) as [cam|]; [|exact (IH Hrest)].
  destruct (cam_image cam) as [tex|]; [|exact (IH Hrest)].
  rewrite negb_involutive in Hv. rewrite Hv. exact (IH Hrest).
Qed.

(** Views without a camera image of nonzero size are passed over. *)
Lemma captureViews_skip net client gl skipped views :
  forallb (λ v, negb (view_usable v)) skipped = true ->
  captureViews net client gl (skipped ++ views) = captureViews net client gl views.
Proof.
  induction skipped as [|view rest IH]; [reflexivity|].
  cbn [forallb app captureViews]. unfold view_usable at 1.
  intros [Hv Hrest]%andb_prop.
  destruct (view_camera view) as [cam|]; [|exact (IH Hrest)].
  destruct (cam_image cam) as [tex|]; [|exact (IH Hrest)].
  rewrite negb_involutive in Hv. rewrite Hv. exact (IH Hrest).
Qed.

(** The trace of a capture that got past its checks. *)
Lemma captureFrame_scheduled net client gl xrFrame s session rs :
  captureFrame_checks s = Resolved (session, rs) ->
  let body := match getViewerPose xrFrame rs with
              | None => ret None
              | Some views => captureViews net client gl views
              end in
  captureFrame net client gl xrFrame s =
  (RequestAnimationFrame session :: trace body
     ++ (if hasContext gl then [RestoreFramebuffer session] else []),
   outcome body).
Proof.
  intros Hchk. cbn zeta. unfold captureFrame, frameCallback, try_finally.
  rewrite Hchk.
  destruct (match getViewerPose xrFrame rs with Some _ => _ | None => _ end) as [t o].
  reflexivity.
Qed.

(** X20. A capture with nothing to capture resolves to null, not to an
    error, and touches neither the GPU nor the network: so it is when
    the viewer pose is null, and when no view has a camera image of
    nonzero size. The frame is requested and the framebuffer binding
    restored all the same. *)
Theorem capture_without_usable_view (net : Network) (client : MultisetClient)
  (gl : GlEnv) (xrFrame : XRFrame) (s : State) (session rs : ObjId) :
  captureFrame_checks s = Resolved (session, rs) ->
  match getViewerPose xrFrame rs with
  | None => True
  | Some views => forallb (λ v, negb (view_usable v)) views = true
  end ->
  captureFrame net client gl xrFrame s =
  (RequestAnimationFrame session
     :: (if hasContext gl then [RestoreFramebuffer session] else []),
   Resolved None).
Proof.
  intros Hchk Hviews. rewrite (captureFrame_scheduled _ _ _ _ _ _ _ Hchk). cbn zeta.
  destruct (getViewerPose xrFrame rs) as [views|]; [|reflexivity].
  rewrite (captureViews_unusable _ _ _ _ Hviews). reflexivity.
Qed.

Lemma capture_without_usable_view_witness :
  captureFrame (demo_net true) demo_client demo_gl demo_xrFrame_no_camera demo_active
    = ([RequestAnimationFrame 500; RestoreFramebuffer 500], Resolved None)
  /\ captureFrame (demo_net true) demo_client demo_gl demo_xrFrame_no_pose demo_active
    = ([RequestAnimationFrame 500; RestoreFramebuffer 500], Resolved None).
Proof.
  split.
  - apply (capture_without_usable_view (demo_net true) demo_client demo_gl
             demo_xrFrame_no_camera demo_active 500 501); reflexivity.
  - apply (capture_without_usable_view (demo_net true) demo_client demo_gl
             demo_xrFrame_no_pose demo_active 500 501); [reflexivity | exact I].
Defined.

(** X21. A capture that got past its checks requests exactly one frame,
    first, and restores the framebuffer binding of the session exactly
    once, last, however it settles: resolved with a pose, resolved with
    null, or rejected. *)
Theorem capture_restores_framebuffer (net : Network) (client : MultisetClient)
  (gl : GlEnv) (xrFrame : XRFrame) (s : State) (session rs : ObjId) :
  captureFrame_checks s = Resolved (session, rs) ->
  hasContext gl = true ->
  exists mid,
    trace (captureFrame net client gl xrFrame s)
      = RequestAnimationFrame session :: mid ++ [RestoreFramebuffer session]
    /\ Forall (λ ev, is_frame_event ev = false) mid.
Proof.
  intros Hchk Hctx. rewrite (captureFrame_scheduled _ _ _ _ _ _ _ Hchk). cbn zeta.
  rewrite Hctx. eexists. split; [reflexivity|].
  destruct (getViewerPose xrFrame rs) as [views|]; [|constructor].
  apply captureViews_events.
Qed.

Lemma capture_restores_framebuffer_witness :
  exists mid,
    trace (captureFrame (demo_net true) demo_client_no_token demo_gl demo_xrFrame
             demo_active)
      = RequestAnimationFrame 500 :: mid ++ [RestoreFramebuffer 500]
    /\ Forall (λ ev, is_frame_event ev = false) mid.
Proof.
  apply (capture_restores_framebuffer (demo_net true) demo_client_no_token demo_gl
           demo_xrFrame demo_active 500 501); reflexivity.
Defined.

(** X22. The error that the client throws inside the frame callback
    rejects the capture. When the checks pass, the first view with a
    camera image of nonzero size is read back and encoded, and the
    client holds no token, [captureFrame] rejects with the missing-token
    error: nothing is notified or sent, the views after it are not
    tried, and the framebuffer binding is restored all the same. *)
Theorem capture_rejects_without_token (net : Network) (client : MultisetClient)
  (gl : GlEnv) (xrFrame : XRFrame) (s : State) (session rs : ObjId)
  (skipped : list XRViewWithCamera) (view : XRViewWithCamera)
  (rest : list XRViewWithCamera) (cam : XRCamera) (tex : ObjId) :
  captureFrame_checks s = Resolved (session, rs) ->
  getViewerPose xrFrame rs = Some (skipped ++ view :: rest) ->
  forallb (λ v, negb (view_usable v)) skipped = true ->
  view_camera view = Some cam -> cam_image cam = Some tex ->
  cam_width cam <> 0 -> cam_height cam <> 0 ->
  hasContext gl = true -> createFramebuffer gl = true ->
  (forall buf, compressToJpeg gl buf (cam_width cam) (cam_height cam) (7 # 10) <> []) ->
  truthy_string (accessToken client) = false ->
  captureFrame net client gl xrFrame s =
  ([RequestAnimationFrame session;
    CreateFramebuffer; ReadPixels (cam_width cam) (cam_height cam); DeleteFramebuffer;
    RestoreFramebuffer session],
   Rejected MissingTokenError).
Proof.
  intros Hchk Hpose Hskip Hcam Himg Hw Hh Hctx Hfb Henc Htok.
  rewrite (captureFrame_scheduled _ _ _ _ _ _ _ Hchk). cbn zeta.
  rewrite Hpose, Hctx, (captureViews_skip _ _ _ _ _ Hskip).
  cbn [captureViews]. rewrite Hcam, Himg.
  apply Nat.eqb_neq in Hw, Hh. rewrite Hw, Hh. cbn [orb].
  destruct (getCameraTextureAsImage_cases gl tex (cam_width cam) (cam_height cam))
    as (flipped & _ & ->).
  rewrite Hctx, Hfb. cbn [negb]. cbn zeta.
  rewrite decide_False by (intros Hlen; apply (Henc flipped);
                           destruct (compressToJpeg _ _ _ _ _); [reflexivity|discriminate]).
  rewrite bind_settled, (localizeWithFrame_falsy_token _ _ _ _ Htok). reflexivity.
Qed.

Lemma capture_rejects_without_token_witness :
  captureFrame (demo_net true) demo_client_no_token demo_gl
    {| getViewerPose := λ _, Some ([demo_view_no_camera] ++ demo_view :: [demo_view]) |}
    demo_active =
  ([RequestAnimationFrame 500;
    CreateFramebuffer; ReadPixels 2 1; DeleteFramebuffer;
    RestoreFramebuffer 500],
   Rejected MissingTokenError).
Proof.
  apply (capture_rejects_without_token (demo_net true) demo_client_no_token demo_gl
           {| getViewerPose := λ _, Some ([demo_view_no_camera] ++ demo_view :: [demo_view]) |}
           demo_active 500 501 [demo_view_no_camera] demo_view [demo_view]
           {| cam_width := 2; cam_height := 1; cam_image := Some 77 |} 77);
    try reflexivity; try (cbn; lia).
  intros buf. discriminate.
Defined.

(** X23. One capture sends at most one localization query and at most
    one map-detail request, however many views the frame has: the first
    view that yields an image ends the loop. *)
Theorem capture_sends_at_most_one_query (net : Network) (client : MultisetClient)
  (gl : GlEnv) (xrFrame : XRFrame) (s : State) :
  let t := trace (captureFrame net client gl xrFrame s) in
  length (List.filter is_query_post t) <= 1
  /\ length (List.filter is_map_detail_fetch t) <= 1.
Proof.
  cbn zeta. destruct (captureFrame_checks s) as [[session rs]|e0] eqn:Hchk.
  - rewrite (captureFrame_scheduled _ _ _ _ _ _ _ Hchk). cbn zeta. cbn [trace fst].
    assert (Hend : forall P : Event -> bool,
              (forall x, P (RestoreFramebuffer x) = false) ->
              List.filter P (if hasContext gl then [RestoreFramebuffer session] else [])
              = []).
    { intros P HP. destruct (hasContext gl); cbn; rewrite ?HP; reflexivity. }
    cbn [List.filter is_query_post is_map_detail_fetch].
    rewrite !List.filter_app, !Hend, !app_nil_r by reflexivity.
    destruct (getViewerPose xrFrame rs) as [views|]; [|cbn; lia].
    apply captureViews_requests.
  - unfold captureFrame. rewrite Hchk. cbn. lia.
Qed.

Example capture_two_views_one_query :
  List.filter is_query_post
    (trace (captureFrame (demo_net true) demo_client demo_gl demo_xrFrame_two_views
              demo_active))
  = [HttpPostQuery "https://dev-api.multiset.ai/v1/vps/map/query-form" (Some "abc")
       (build_form demo_client demo_frame demo_intrinsics)].
Proof. vm_compute. reflexivity. Qed.

(** X24. A view whose image encodes to nothing is passed over: its
    framebuffer is created, read and deleted, nothing is sent for it,
    and the loop goes on with the next view. *)
Theorem capture_skips_unencodable_view (net : Network) (client : MultisetClient)
  (gl : GlEnv) (view : XRViewWithCamera) (rest : list XRViewWithCamera)
  (cam : XRCamera) (tex : ObjId) :
  view_camera view = Some cam -> cam_image cam = Some tex ->
  cam_width cam <> 0 -> cam_height cam <> 0 ->
  hasContext gl = true -> createFramebuffer gl = true ->
  (forall buf, compressToJpeg gl buf (cam_width cam) (cam_height cam) (7 # 10) = []) ->
  captureViews net client gl (view :: rest) =
  ([CreateFramebuffer; ReadPixels (cam_width cam) (cam_height cam); DeleteFramebuffer]
     ++ trace (captureViews net client gl rest),
   outcome (captureViews net client gl rest)).
Proof.
  intros Hcam Himg Hw Hh Hctx Hfb Henc. cbn [captureViews]. rewrite Hcam, Himg.
  apply Nat.eqb_neq in Hw, Hh. rewrite Hw, Hh. cbn [orb].
  destruct (getCameraTextureAsImage_cases gl tex (cam_width cam) (cam_height cam))
    as (flipped & _ & ->).
  rewrite Hctx, Hfb. cbn [negb]. cbn zeta. rewrite Henc.
  rewrite decide_True by reflexivity. rewrite bind_settled. reflexivity.
Qed.

Lemma capture_skips_unencodable_view_witness :
  captureViews (demo_net true) demo_client demo_gl_no_blob [demo_view; demo_view_no_camera] =
  ([CreateFramebuffer; ReadPixels 2 1; DeleteFramebuffer]
     ++ trace (captureViews (demo_net true) demo_client demo_gl_no_blob
                 [demo_view_no_camera]),
   outcome (captureViews (demo_net true) demo_client demo_gl_no_blob
              [demo_view_no_camera])).
Proof.
  apply (capture_skips_unencodable_view (demo_net true) demo_client demo_gl_no_blob
           demo_view [demo_view_no_camera]
           {| cam_width := 2; cam_height := 1; cam_image := Some 77 |} 77);
    try reflexivity; try (cbn; lia).
Defined.

(** ** Disposal, from the reachable states *)

(** X25. [dispose] is idempotent in every state, and on a controller
    that was never initialized it changes nothing at all. *)
Theorem dispose_is_idempotent (s : State) :
  dispose (dispose s) = dispose s
  /\ forall o w,
       dispose {| ctl := new_WebxrController o; world := w |}
       = {| ctl := new_WebxrController o; world := w |}.
Proof. split; [apply dispose_twice | reflexivity]. Qed.

(** X26. [dispose] of an initialized controller, in any reachable state
    of a page that started without [resize] listeners: [window] is left
    with none, the button is out of the document, [renderer.dispose()]
    has been called on the renderer, every handle is cleared, and a
    capture is refused as not initialized. *)
Theorem dispose_tears_down (o : IWebxrControllerOptions) (w0 : World) (s : State)
  (r b : ObjId) :
  Reachable o w0 s -> resizeListeners w0 = [] ->
  renderer (ctl s) = Some r -> arButton (ctl s) = Some b ->
  let s' := dispose s in
  resizeListeners (world s') = []
  /\ parentElement (world s') !! b = None
  /\ r_disposed (renderers (world s') !!! r) = true
  /\ (renderer (ctl s'), camera (ctl s'), scene (ctl s'), animationLoop (ctl s'),
      arButton (ctl s')) = (None, None, None, None, None)
  /\ forall net client gl xrFrame,
       captureFrame net client gl xrFrame s' = ([], Rejected NotInitializedError).
Proof.
  intros Hreach Hw0 Hr Hb. cbn zeta.
  destruct (dispose_releases_renderer s r Hr) as [Hd Hl].
  split.
  { rewrite resizeListeners_after_dispose,
      (reachable_resize_listeners o w0 s Hreach Hw0).
    unfold own_resize_listeners. rewrite Hr.
    destruct (resizeHandler (ctl s)) as [h|]; [|reflexivity].
    rewrite filter_cons, decide_False by (intros Hne; apply Hne; reflexivity).
    reflexivity. }
  split; [exact (dispose_detaches_button s b Hb)|].
  split; [exact Hd|].
  split; [reflexivity|]. intros net client gl xrFrame. reflexivity.
Qed.

Lemma dispose_tears_down_witness :
  let s' := dispose demo_active in
  resizeListeners (world s') = []
  /\ parentElement (world s') !! 17 = None
  /\ r_disposed (renderers (world s') !!! 10) = true
  /\ (renderer (ctl s'), camera (ctl s'), scene (ctl s'), animationLoop (ctl s'),
      arButton (ctl s')) = (None, None, None, None, None)
  /\ forall net client gl xrFrame,
       captureFrame net client gl xrFrame s' = ([], Rejected NotInitializedError).
Proof.
  apply (dispose_tears_down demo_options demo_world demo_active 10 17);
    try reflexivity.
  exact (reach_event _ _ 10 sessionstart _
           (reach_runtime _ _ 10 (Some 500) (Some 501) true _ demo_ready_reachable)).
Defined.

(** ** The flip, byte by byte *)

Lemma concat_lookup_uniform W (rows : list (list byte)) :
  uniform_rows W rows ->
  forall r col, col < W ->
    concat rows !! (r * W + col) = rows !! r ≫= (λ row, row !! col).
Proof.
  induction 1 as [|r0 rows Hr0 _ IH]; intros r col Hcol; [destruct r; reflexivity|].
  destruct r as [|r]; cbn [concat].
  - cbn. apply lookup_app_l. lia.
  - rewrite lookup_app_r by (cbn; lia).
    replace (S r * W + col - length r0) with (r * W + col) by (cbn; lia).
    apply IH, Hcol.
Qed.

(** X27. The flip is the vertical flip: for a buffer of
    [width * height * 4] bytes it succeeds, keeps the length, and the
    byte at column [col] of row [row] of the result is the byte at the
    same column of row [height - 1 - row] of the input. *)
Theorem flip_moves_rows (width height : nat) (pixelBuffer : list byte) :
  length pixelBuffer = width * height * 4 ->
  exists flipped,
    flipVertical width height pixelBuffer = Some flipped
    /\ length flipped = length pixelBuffer
    /\ forall row col, row < height -> col < width * 4 ->
         flipped !! (row * (width * 4) + col)
         = pixelBuffer !! ((height - 1 - row) * (width * 4) + col).
Proof.
  intros Hlen.
  destruct (rows_of_buffer (width * 4) height pixelBuffer) as (rows & -> & <- & Hu);
    [lia|].
  exists (concat (rev rows)). split; [apply flipVertical_rows, Hu|]. split.
  - rewrite !(uniform_rows_concat_length (width * 4))
      by (try apply uniform_rows_rev; exact Hu).
    rewrite length_rev. reflexivity.
  - intros row col Hrow Hcol.
    rewrite !(concat_lookup_uniform (width * 4))
      by (try apply uniform_rows_rev; assumption).
    rewrite rev_alt. change (rev_append rows []) with (reverse rows).
    rewrite reverse_lookup by exact Hrow.
    replace (length rows - S row) with (length rows - 1 - row) by lia.
    reflexivity.
Qed.

Lemma flip_moves_rows_witness :
  exists flipped,
    flipVertical 1 2 [x01; x02; x03; x04; x05; x06; x07; x08] = Some flipped
    /\ length flipped = length [x01; x02; x03; x04; x05; x06; x07; x08]
    /\ forall row col, row < 2 -> col < 1 * 4 ->
         flipped !! (row * (1 * 4) + col)
         = [x01; x02; x03; x04; x05; x06; x07; x08] !! ((2 - 1 - row) * (1 * 4) + col).
Proof. apply (flip_moves_rows 1 2). reflexivity. Defined.

(** ** The intrinsics, back to the matrix *)

(** X28. In binary64 the intrinsics do not determine the entries they
    were computed from: for a view of 640 by 480 pixels, the matrix with
    [P[8] = P[9] = 2^-60] and the matrix with [P[8] = P[9] = 0] give the
    same intrinsics, field by field. *)
Theorem intrinsics_do_not_determine_projection :
  idx64 demo_projection64_tiny 8 <> idx64 demo_projection64_centred 8
  /\ idx64 demo_projection64_tiny 9 <> idx64 demo_projection64_centred 9
  /\ getCameraIntrinsics64 demo_projection64_tiny (capture_viewport64 640 480)
     = getCameraIntrinsics64 demo_projection64_centred (capture_viewport64 640 480).
Proof.
  split; [|split; [|reflexivity]];
    intros H; apply (f_equal Prim2SF) in H; vm_compute in H; discriminate H.
Qed.
